(** * JJK card game: battle engine and balance tuner

    A shallow embedding of the Python sources (character.py, player.py,
    deck.py, battle.py, ultimate_abilities.py, balance_simulator.py) and
    the properties of the design document checked against it.

    Conventions of the embedding.
    - Python integers are [Z]; so are the columns of a DataFrame, which
      are 64-bit in the code.  Python floats are exact rationals [Q]: the
      code can differ from them at a rounding tie or at a comparison
      that holds with equality, and no statement below sits on one.
    - Every [Character] is a mutable object.  Hands and fields hold
      references into an object store, so that a mutation through one
      reference is seen through every other one.
    - Python dictionaries keyed by a name are [gmap string _]; dictionaries
      that are iterated are association lists in insertion order.
    - A function that can raise returns [exc]; a loop with no bound of its
      own takes fuel and returns [None] when the fuel runs out.
    - [random.choice] reads from an oracle supplied by the caller. *)

From Stdlib Require Import ZArith QArith Qabs Qminmax Lia String Ascii.
From stdpp Require Import base option list functions gmap strings sorting.

Open Scope Z_scope.

(** ** Python exceptions *)

Inductive exception :=
  TypeError | ValueError | KeyError | IndexError | ZeroDivisionError.

Inductive exc (A : Type) :=
| Returned (a : A)
| Raised (e : exception).
Arguments Returned {A} a.
Arguments Raised {A} e.

Global Instance exc_ret : MRet exc := fun A a => Returned a.
Global Instance exc_bind : MBind exc := fun A B k m =>
  match m with
  | Returned a => k a
  | Raised e => Raised e
  end.

(** [max(seq, key=...)] keeps the first element among those with the
    largest key; on an empty sequence it raises. *)
Fixpoint max_by {A} (key : A -> Z) (best : A) (l : list A) : A :=
  match l with
  | [] => best
  | y :: l' => if key best <? key y then max_by key y l' else max_by key best l'
  end.

Definition py_max {A} (key : A -> Z) (l : list A) : option A :=
  match l with
  | [] => None
  | x :: l' => Some (max_by key x l')
  end.

(** [list.remove(x)]: drops the first occurrence. *)
Fixpoint list_remove (x : nat) (l : list nat) : list nat :=
  match l with
  | [] => []
  | y :: l' => if Nat.eqb y x then l' else y :: list_remove x l'
  end.

(** [int(x)] on a float: truncation toward zero. *)
Definition py_int (q : Q) : Z := Z.quot (Qnum q) (Zpos (Qden q)).

(** [round(x)] on a float: to the nearest integer, ties to the even one. *)
Definition py_round (q : Q) : Z :=
  let n := Qnum q in
  let d := Zpos (Qden q) in
  let f := n / d in
  let r2 := 2 * (n mod d) in
  if r2 <? d then f
  else if d <? r2 then f + 1
  else if Z.even f then f else f + 1.

(** [str.lower()], on ASCII letters. *)
Definition ascii_lower (c : ascii) : ascii :=
  let n := nat_of_ascii c in
  if (65 <=? n)%nat && (n <=? 90)%nat then ascii_of_nat (n + 32) else c.

Fixpoint lower (s : string) : string :=
  match s with
  | EmptyString => EmptyString
  | String c s' => String (ascii_lower c) (lower s')
  end.

(** [sub in s] and [s.find(sub)] for a non-empty [sub]. *)
Definition contains (sub s : string) : bool :=
  match String.index 0 sub s with Some _ => true | None => false end.

Definition py_find (sub s : string) : Z :=
  match String.index 0 sub s with Some i => Z.of_nat i | None => -1 end.

(** [s.split(sep)[0]]. *)
Definition split_head (sep s : string) : string :=
  match String.index 0 sep s with
  | Some i => String.substring 0 i s
  | None => s
  end.

(** [s[start:stop]], a negative index counting from the end. *)
Definition py_slice (s : string) (start stop : Z) : string :=
  let len := Z.of_nat (String.length s) in
  let norm i := if i <? 0 then Z.max 0 (len + i) else Z.min i len in
  let a := norm start in
  let b := norm stop in
  if a <? b then String.substring (Z.to_nat a) (Z.to_nat (b - a)) s else ""%string.

(** Comparisons of floats. *)
Definition Qlt_bool (x y : Q) : bool := negb (Qle_bool y x).

(** ** ultimate_abilities.py *)

Module ultimate_abilities.

Inductive pyvalue :=
| PyStr (s : string)
| PyNum (q : Q)
| PyBool (b : bool)
| PyList (l : list string)
| PyDict (d : list (string * Q)).

Record UltimateAbility := mkUltimateAbility {
  name : string;
  damage_multiplier : Q;
  effects : list (string * pyvalue)
}.

(** The parameters of [UltimateAbility.__init__] after [self]. *)
Definition init_parameters : list string :=
  ["name"; "damage_multiplier"; "effects"]%string.

Definition kwarg (k : string) (kwargs : list (string * pyvalue)) : option pyvalue :=
  snd <$> List.find (fun kv => String.eqb (fst kv) k) kwargs.

(** A call [UltimateAbility(k1=v1, ...)].  A keyword that is not a
    parameter of [__init__] raises [TypeError], and so does a missing
    [name]; [damage_multiplier] defaults to 1.0. *)
Definition UltimateAbility_init (kwargs : list (string * pyvalue)) : exc UltimateAbility :=
  if forallb (fun kv => existsb (String.eqb (fst kv)) init_parameters) kwargs then
    match kwarg "name" kwargs with
    | Some (PyStr n) =>
        let m := match kwarg "damage_multiplier" kwargs with
                 | Some (PyNum q) => q
                 | _ => 1%Q
                 end in
        Returned (mkUltimateAbility n m [])
    | _ => Raised TypeError
    end
  else Raised TypeError.

Definition dict_get {V} (k : string) (d : list (string * V)) : option V :=
  snd <$> List.find (fun kv => String.eqb (fst kv) k) d.

(** The type of [get_ultimate_ability]: the call raises, or returns an
    ability or [None]. *)
Definition lookup_fn := string -> string -> exc (option UltimateAbility).

(** [get_ultimate_ability(character_name, variant)]: the table is a
    dictionary literal built on every call, entry by entry, before the
    lookup. *)
Definition get_ultimate_ability : lookup_fn := fun character_name variant =>
  gojo ← UltimateAbility_init
            [("name", PyStr "Hollow Purple"); ("damage_multiplier", PyNum (5 # 2));
             ("cooldown", PyNum 3)]%string;
  yuji ← UltimateAbility_init
            [("name", PyStr "Black Flash"); ("damage_multiplier", PyNum 2);
             ("cooldown", PyNum 2)]%string;
  megumi ← UltimateAbility_init
            [("name", PyStr "Divine Dogs"); ("damage_multiplier", PyNum (9 # 5));
             ("status_effects", PyList ["Bind"%string]); ("cooldown", PyNum 2)]%string;
  let ultimate_abilities :=
    [("Gojo Satoru", [("Standard", gojo)]);
     ("Yuji Itadori", [("Standard", yuji)]);
     ("Megumi Fushiguro", [("Standard", megumi)])]%string in
  Returned (dict_get variant (default [] (dict_get character_name ultimate_abilities))).

(** [UltimateAbilities.gojo_satoru_ultimate], one of the hand-written
    methods that [Character.get_ultimate_ability] dispatches to; it
    reads the variant of the character. *)
Definition gojo_satoru_ultimate (char_variant : string) : UltimateAbility :=
  let variant := lower char_variant in
  if contains "young" variant then
    mkUltimateAbility "Reversal Red" (5 # 2)
      [("flat_damage", PyNum 300); ("single_target", PyBool true)]%string
  else if contains "shibuya" variant then
    mkUltimateAbility "Hollow Purple" 0
      [("destroy_primary_target", PyBool true); ("aoe_damage", PyNum 200)]%string
  else if contains "toji incident" variant then
    mkUltimateAbility "Hollow Purple" 0
      [("flat_damage", PyNum 400); ("single_target", PyBool true)]%string
  else if contains "honored one" variant || contains "culling games" variant then
    mkUltimateAbility "Hollow Purple: Divine Wrath" 0
      [("flat_damage", PyNum 500); ("single_target", PyBool true);
       ("conditional_aoe", PyDict [("damage_if_kill", 250%Q)])]%string
  else
    mkUltimateAbility "Hollow Purple" (5 # 2) [("ignore_defense", PyBool true)]%string.

(** The methods of the class [UltimateAbilities]: from the key under
    which [Character.get_ultimate_ability] files a method and the
    variant of the character to the ability the method returns. *)
Definition methods := string -> string -> option UltimateAbility.

End ultimate_abilities.

(** ** character.py *)

Module Character.

Record StatusEffect := mkStatusEffect { prevents_healing : bool }.

(** The attributes of a [Character] that its methods and the battle
    read.  [ultimate], [cannot_attack_next_turn] and [regen_rate] are
    set by [__init__] and read by none of the functions below. *)
Record t := mk {
  name : string;
  variant : string;
  cost : Z;
  atk : Z;
  def_val : Z;
  max_health : Z;
  current_health : Z;
  effect : string;
  energy : Z;
  ultimate_energy_cost : Z;
  ultimate_damage : Z;
  status_effects : list StatusEffect
}.

Definition set_current_health (v : Z) (c : t) : t :=
  mk (name c) (variant c) (cost c) (atk c) (def_val c) (max_health c) v
     (effect c) (energy c) (ultimate_energy_cost c) (ultimate_damage c)
     (status_effects c).

Definition set_energy (v : Z) (c : t) : t :=
  mk (name c) (variant c) (cost c) (atk c) (def_val c) (max_health c)
     (current_health c) (effect c) v (ultimate_energy_cost c)
     (ultimate_damage c) (status_effects c).

Definition set_def_val (v : Z) (c : t) : t :=
  mk (name c) (variant c) (cost c) (atk c) v (max_health c)
     (current_health c) (effect c) (energy c) (ultimate_energy_cost c)
     (ultimate_damage c) (status_effects c).

(** The keys of the dictionary [ultimate_methods]. *)
Definition ultimate_methods : list string :=
  ["gojo satoru"; "fushiguro megumi"; "kugisaki nobara"; "nanami kento";
   "kenjaku"; "naoya zenin"]%string.

(** [Character.get_ultimate_ability]: the method filed under the
    lower-cased name, if there is one, applied to the character. *)
Definition get_ultimate_ability (table : ultimate_abilities.methods)
    (name variant : string) : option ultimate_abilities.UltimateAbility :=
  let character_name := lower name in
  if existsb (String.eqb character_name) ultimate_methods
  then table character_name variant
  else None.

Definition parse_ultimate_damage (table : ultimate_abilities.methods)
    (name variant : string) (atk : Z) : Z :=
  match get_ultimate_ability table name variant with
  | Some ultimate => py_int (inject_Z atk * ultimate_abilities.damage_multiplier ultimate)
  | None => atk
  end.

(** [Character.__init__]. *)
Definition init (table : ultimate_abilities.methods)
    (name variant : string) (cost atk def_ : Z) (effect : string)
    (ultimate_cost : Z) : t :=
  mk name variant cost atk def_ def_ def_ effect 0 ultimate_cost
     (parse_ultimate_damage table name variant atk) [].

(** [take_damage]: the damage dealt and the character afterwards. *)
Definition take_damage (self : t) (amount : Z) : Z * t :=
  let actual_damage := Z.min amount (current_health self) in
  (actual_damage, set_current_health (current_health self - actual_damage) self).

Definition is_alive (self : t) : bool := 0 <? current_health self.

Definition heal (self : t) (amount : Z) : t :=
  set_def_val (Z.min (def_val self) (def_val self + amount)) self.

Definition add_energy (self : t) : t :=
  set_energy (Z.min (energy self + 1) 10) self.

Definition regenerate_health (self : t) : t :=
  if is_alive self && negb (existsb prevents_healing (status_effects self))
  then set_current_health (max_health self) self
  else self.

(** *** The object store *)

Definition ref := nat.
Definition store := ref -> t.

(** [self.use_ultimate(target)] on two objects of the store. *)
Definition use_ultimate (h : store) (self target : ref) : Z * store :=
  if ultimate_energy_cost (h self) <=? energy (h self) then
    let h1 := <[self := set_energy (energy (h self) - ultimate_energy_cost (h self)) (h self)]> h in
    let '(damage, target') := take_damage (h1 target) (ultimate_damage (h1 self)) in
    (damage, <[target := target']> h1)
  else (0, h).

End Character.

(** ** The card table

    A row of the DataFrame read from characters.csv, with the columns
    that the program reads. *)
Record CardRow := mkCardRow {
  Name : string;
  Variant : string;
  Cost : Z;
  ATK : Z;
  DEF : Z;
  Effect : string;
  Ultimate_Cost : Z
}.

(** The key [f"{name} ({variant})"] of a card. *)
Definition card_id (name variant : string) : string :=
  (name ++ " (" ++ variant ++ ")")%string.

(** ** deck.py *)

Module Deck.

Record t := mk {
  cards : list Character.ref;
  graveyard : list Character.ref
}.

Definition draw (self : t) (count : nat) : list Character.ref * t :=
  match cards self with
  | [] => ([], self)
  | _ =>
      let count := Nat.min count (length (cards self)) in
      (take count (cards self), mk (drop count (cards self)) (graveyard self))
  end.

Definition cards_remaining (self : t) : Z := Z.of_nat (length (cards self)).

Definition send_to_graveyard (self : t) (card : Character.ref) : t :=
  mk (cards self) (graveyard self ++ [card]).

(** *** Building a deck *)

Definition COST_DISTRIBUTION : list (Z * nat) :=
  [(1, 8%nat); (2, 10%nat); (3, 8%nat); (4, 6%nat); (5, 4%nat); (6, 3%nat);
   (7, 1%nat)].

(** What [build_initial_deck] carries through its loops: the characters
    selected, the copies of each card, the random draws made. *)
Record BuildState := mkBuildState {
  selected_cards : list Character.t;
  card_counts : gmap string Z;
  draws : nat
}.

Fixpoint group_insert (cost : Z) (card : CardRow) (g : list (Z * list CardRow))
  : list (Z * list CardRow) :=
  match g with
  | [] => [(cost, [card])]
  | (c, l) :: g' =>
      if c =? cost then (c, l ++ [card]) :: g'
      else (c, l) :: group_insert cost card g'
  end.

Definition group_by_cost (valid_cards : list CardRow) : list (Z * list CardRow) :=
  foldl (fun g card => group_insert (Z.min (Z.max (Cost card) 1) 7) card g)
        [] valid_cards.

Definition group_get (cost : Z) (g : list (Z * list CardRow)) : list CardRow :=
  default [] (snd <$> List.find (fun e => fst e =? cost) g).

Section Build.

(** The hand-written ultimates. *)
Variable table : ultimate_abilities.methods.

(** The random source: the [k]-th draw. *)
Variable rng : nat -> nat.

(** [create_character_from_data]: [standardize_column_names] has
    lower-cased the name of the column of the ultimate costs, so
    [card_data.get('Ultimate Cost', 1)] finds none and gives 1. *)
Definition create_character_from_data (card : CardRow) : Character.t :=
  Character.init table (Name card) (Variant card) (Cost card) (ATK card) (DEF card)
    (Effect card) 1.

(** [random.choice(seq)] as the [k]-th draw; [IndexError] on an empty
    sequence. *)
Definition choice {A} (k : nat) (seq : list A) : option A :=
  seq !! (rng k mod length seq)%nat.

Definition count_of (card : CardRow) (st : BuildState) : Z :=
  default 0 (card_counts st !! card_id (Name card) (Variant card)).

Definition add_card (card : CardRow) (st : BuildState) : BuildState :=
  mkBuildState
    (selected_cards st ++ [create_character_from_data card])
    (<[card_id (Name card) (Variant card) := count_of card st + 1]> (card_counts st))
    (draws st).

Definition drawn (n : nat) (st : BuildState) : BuildState :=
  mkBuildState (selected_cards st) (card_counts st) (draws st + n)%nat.

(** The loop [while cards_added < target_count and attempts <
    max_attempts]; [attempts_left] is [max_attempts - attempts]. *)
Fixpoint cost_loop (attempts_left : nat) (target_count cards_added : nat)
    (cost_cards : list CardRow) (st : BuildState) : exc BuildState :=
  match attempts_left with
  | O => Returned st
  | S attempts_left' =>
      if (cards_added <? target_count)%nat then
        match choice (draws st) cost_cards with
        | None => Raised IndexError
        | Some card =>
            let st := drawn 1 st in
            if count_of card st <? 3
            then cost_loop attempts_left' target_count (S cards_added)
                           cost_cards (add_card card st)
            else cost_loop attempts_left' target_count cards_added cost_cards st
        end
      else Returned st
  end.

(** The loop over [COST_DISTRIBUTION]. *)
Fixpoint fill_by_cost (dist : list (Z * nat)) (groups : list (Z * list CardRow))
    (st : BuildState) : exc BuildState :=
  match dist with
  | [] => Returned st
  | (cost, target_count) :: dist' =>
      match group_get cost groups with
      | [] => fill_by_cost dist' groups st
      | cost_cards =>
          st ← cost_loop (target_count * 3) target_count 0 cost_cards st;
          fill_by_cost dist' groups st
      end
  end.

(** The loop [while len(selected_cards) < self.size], on fuel. *)
Fixpoint fill_loop (fuel : nat) (size : nat) (groups : list (Z * list CardRow))
    (st : BuildState) : option (exc BuildState) :=
  match fuel with
  | O => None
  | S fuel' =>
      if (length (selected_cards st) <? size)%nat then
        match merge_sort Z.le (fst <$> groups) with
        | [] => Some (Returned st)
        | available_costs =>
            match choice (draws st) available_costs with
            | None => Some (Raised IndexError)
            | Some cost =>
                match choice (S (draws st)) (group_get cost groups) with
                | None => Some (Raised IndexError)
                | Some card =>
                    let st := drawn 2 st in
                    if count_of card st <? 3
                    then fill_loop fuel' size groups (add_card card st)
                    else fill_loop fuel' size groups st
                end
            end
        end
      else Some (Returned st)
  end.

Definition swap {A} (i j : nat) (l : list A) : list A :=
  match l !! i, l !! j with
  | Some x, Some y => <[i := y]> (<[j := x]> l)
  | _, _ => l
  end.

(** [random.shuffle]: for [i] from the last index down to 1, swap the
    element at [i] with the one at a random index up to [i]. *)
Fixpoint shuffle {A} (i : nat) (k : nat) (l : list A) : list A :=
  match i with
  | O => l
  | S i' => shuffle i' (S k) (swap i (rng k mod S i) l)
  end.

(** [build_initial_deck]: [None] when the fuel of the second loop runs
    out.  Every row has an ATK and a DEF ([standardize_column_names]
    fills the gaps), so every row is a valid card. *)
Definition build_initial_deck (fuel : nat) (size : nat) (cards_df : list CardRow)
  : option (exc (list Character.t)) :=
  match cards_df with
  | [] => Some (Raised ValueError)
  | valid_cards =>
      let groups := group_by_cost valid_cards in
      match fill_by_cost COST_DISTRIBUTION groups (mkBuildState [] ∅ 0) with
      | Raised e => Some (Raised e)
      | Returned st =>
          match fill_loop fuel size groups st with
          | None => None
          | Some (Raised e) => Some (Raised e)
          | Some (Returned st) =>
              Some (Returned (shuffle (length (selected_cards st) - 1) (draws st)
                                      (selected_cards st)))
          end
      end
  end.

End Build.

End Deck.

(** ** player.py *)

Module Player.

Record t := mk {
  name : string;
  deck : Deck.t;
  hand : list Character.ref;
  field : list Character.ref;
  life_points : Z;
  energy : Z;
  max_energy : Z
}.

Definition set_deck (d : Deck.t) (p : t) : t :=
  mk (name p) d (hand p) (field p) (life_points p) (energy p) (max_energy p).
Definition set_hand (v : list Character.ref) (p : t) : t :=
  mk (name p) (deck p) v (field p) (life_points p) (energy p) (max_energy p).
Definition set_field (v : list Character.ref) (p : t) : t :=
  mk (name p) (deck p) (hand p) v (life_points p) (energy p) (max_energy p).
Definition set_life_points (v : Z) (p : t) : t :=
  mk (name p) (deck p) (hand p) (field p) v (energy p) (max_energy p).
Definition set_energy (v : Z) (p : t) : t :=
  mk (name p) (deck p) (hand p) (field p) (life_points p) v (max_energy p).

Definition draw_cards (self : t) (count : nat) : bool * t :=
  let '(drawn, d) := Deck.draw (deck self) count in
  match drawn with
  | [] => (false, set_deck d self)
  | _ => (true, set_hand (hand self ++ drawn) (set_deck d self))
  end.

(** [Player.__init__]: an empty hand and field, 2000 life points, no
    energy, and five cards drawn. *)
Definition init (name : string) (deck : Deck.t) : t :=
  snd (draw_cards (mk name deck [] [] 2000 0 10) 5).

(** [play_card]: the character is an object of the store [h]; membership
    in the hand and [list.remove] compare object identities. *)
Definition play_card (h : Character.store) (self : t) (character : Character.ref)
  : bool * t :=
  if bool_decide (character ∈ hand self)
     && (Character.cost (h character) <=? energy self)
     && (Z.of_nat (length (field self)) <? 5)
  then (true,
        set_energy (energy self - Character.cost (h character))
          (set_field (field self ++ [character])
             (set_hand (list_remove character (hand self)) self)))
  else (false, self).

Definition take_damage (self : t) (amount : Z) : t :=
  set_life_points (Z.max 0 (life_points self - amount)) self.

Definition add_energy (self : t) (amount : Z) : t :=
  set_energy (Z.min (max_energy self) (energy self + amount)) self.

Definition is_alive (self : t) : bool := 0 <? life_points self.

Definition can_play_to_field (self : t) : bool :=
  Z.of_nat (length (field self)) <? 5.

Definition can_play_card (h : Character.store) (self : t) (character : Character.ref)
  : bool :=
  (Character.cost (h character) <=? energy self)
  && (Z.of_nat (length (field self)) <? 5).

End Player.

(** ** battle.py *)

Module Battle.

Inductive side := P1 | P2.

Definition other (s : side) : side :=
  match s with P1 => P2 | P2 => P1 end.

Inductive damage_type := direct_damage | ultimate_damage | effect_damage.

Record DamageStats := mkDamageStats {
  direct : gmap string Z;
  ultimate : gmap string Z;
  effect : gmap string Z;
  total_damage : Z
}.

Record CardTracker := mkCardTracker {
  damage_dealt : Z;
  times_played : Z;
  kills : Z
}.

Record AbilityUsage := mkAbilityUsage {
  abilities_used : list string;
  times_used : Z
}.

(** The lines appended to [battle_log], by kind and arguments. *)
Inductive LogEntry :=
| LogPlays (player card : string)
| LogFailedToPlay (card : string)
| LogUltimate (attacker target : string) (damage : Z)
| LogAttacks (attacker target : string) (damage : Z)
| LogAttacksDirectly (attacker : string) (damage : Z)
| LogCombatFailed (attacker : string).

Global Instance LogEntry_eq_dec : EqDecision LogEntry.
Proof. solve_decision. Defined.

(** The battle and the objects it reaches: [heap] holds the characters
    that the hands and fields of the two players refer to.
    [strategy_log], [game_state] and [battle_record] are set by
    [__init__] and touched by neither [process_turn] nor
    [simulate_battle]. *)
Record t := mk {
  heap : Character.store;
  player1 : Player.t;
  player2 : Player.t;
  damage_stats : DamageStats;
  card_damage_tracker : gmap string CardTracker;
  ability_usage_tracker : gmap string AbilityUsage;
  battle_log : list LogEntry;
  current_turn : Z;
  placements_this_turn : gmap string Z
}.

Definition player (s : side) (b : t) : Player.t :=
  match s with P1 => player1 b | P2 => player2 b end.

Definition set_heap (h : Character.store) (b : t) : t :=
  mk h (player1 b) (player2 b) (damage_stats b) (card_damage_tracker b)
     (ability_usage_tracker b) (battle_log b) (current_turn b)
     (placements_this_turn b).

Definition set_player (s : side) (p : Player.t) (b : t) : t :=
  match s with
  | P1 => mk (heap b) p (player2 b) (damage_stats b) (card_damage_tracker b)
             (ability_usage_tracker b) (battle_log b) (current_turn b)
             (placements_this_turn b)
  | P2 => mk (heap b) (player1 b) p (damage_stats b) (card_damage_tracker b)
             (ability_usage_tracker b) (battle_log b) (current_turn b)
             (placements_this_turn b)
  end.

Definition set_damage_stats (d : DamageStats) (b : t) : t :=
  mk (heap b) (player1 b) (player2 b) d (card_damage_tracker b)
     (ability_usage_tracker b) (battle_log b) (current_turn b)
     (placements_this_turn b).

Definition set_card_damage_tracker (m : gmap string CardTracker) (b : t) : t :=
  mk (heap b) (player1 b) (player2 b) (damage_stats b) m
     (ability_usage_tracker b) (battle_log b) (current_turn b)
     (placements_this_turn b).

Definition set_ability_usage_tracker (m : gmap string AbilityUsage) (b : t) : t :=
  mk (heap b) (player1 b) (player2 b) (damage_stats b) (card_damage_tracker b)
     m (battle_log b) (current_turn b) (placements_this_turn b).

Definition log (e : LogEntry) (b : t) : t :=
  mk (heap b) (player1 b) (player2 b) (damage_stats b) (card_damage_tracker b)
     (ability_usage_tracker b) (battle_log b ++ [e]) (current_turn b)
     (placements_this_turn b).

Definition set_current_turn (n : Z) (b : t) : t :=
  mk (heap b) (player1 b) (player2 b) (damage_stats b) (card_damage_tracker b)
     (ability_usage_tracker b) (battle_log b) n (placements_this_turn b).

Definition set_placements_this_turn (m : gmap string Z) (b : t) : t :=
  mk (heap b) (player1 b) (player2 b) (damage_stats b) (card_damage_tracker b)
     (ability_usage_tracker b) (battle_log b) (current_turn b) m.

Definition bucket (ty : damage_type) (d : DamageStats) : gmap string Z :=
  match ty with
  | direct_damage => direct d
  | ultimate_damage => ultimate d
  | effect_damage => effect d
  end.

Definition set_bucket (ty : damage_type) (m : gmap string Z) (d : DamageStats)
  : DamageStats :=
  match ty with
  | direct_damage => mkDamageStats m (ultimate d) (effect d) (total_damage d)
  | ultimate_damage => mkDamageStats (direct d) m (effect d) (total_damage d)
  | effect_damage => mkDamageStats (direct d) (ultimate d) m (total_damage d)
  end.

Definition set_total_damage (v : Z) (d : DamageStats) : DamageStats :=
  mkDamageStats (direct d) (ultimate d) (effect d) v.

Definition _update_damage_stats (attacker_name : string) (damage : Z)
    (ty : damage_type) (b : t) : t :=
  if damage <=? 0 then b
  else
    let d := damage_stats b in
    let m := bucket ty d in
    let d := set_bucket ty (<[attacker_name := default 0 (m !! attacker_name) + damage]> m) d in
    let d := set_total_damage (total_damage d + damage) d in
    let b := set_damage_stats d b in
    match ty with
    | ultimate_damage =>
        let u := default (mkAbilityUsage [] 0)
                   (ability_usage_tracker b !! attacker_name) in
        set_ability_usage_tracker
          (<[attacker_name := mkAbilityUsage (abilities_used u) (times_used u + 1)]>
             (ability_usage_tracker b)) b
    | _ => b
    end.

Section Engine.

(** The lookup imported from ultimate_abilities.py. *)
Variable get_ultimate_ability : ultimate_abilities.lookup_fn.

(** One round of the loop [for card in playable_cards[:2]].  The
    [try] block plays the card, then bumps the placement counter of
    the player's name ([KeyError] when the name is no key), then the
    tracker, then logs; [except] logs the failure. *)
Definition play_step (s : side) (b : t) (card : Character.ref) : t :=
  let p := player s b in
  let c := heap b card in
  if (Character.cost c <=? Player.energy p)
     && (Z.of_nat (length (Player.field p)) <? 5)
  then
    let b := set_player s (snd (Player.play_card (heap b) p card)) b in
    match placements_this_turn b !! Player.name p with
    | None => log (LogFailedToPlay (Character.name c)) b
    | Some n =>
        let b := set_placements_this_turn
                   (<[Player.name p := n + 1]> (placements_this_turn b)) b in
        let b :=
          match card_damage_tracker b !! Character.name c with
          | Some tr =>
              set_card_damage_tracker
                (<[Character.name c :=
                     mkCardTracker (damage_dealt tr) (times_played tr + 1) (kills tr)]>
                   (card_damage_tracker b)) b
          | None => b
          end in
        log (LogPlays (Player.name p) (Character.name c)) b
    end
  else b.

Definition playable_cards (s : side) (b : t) : list Character.ref :=
  filter (fun card => Character.cost (heap b card) <= Player.energy (player s b))
         (Player.hand (player s b)).

Definition play_phase (s : side) (b : t) : t :=
  foldl (play_step s) b (take 2 (playable_cards s b)).

(** The regular attack of one character, with the energy it gains. *)
Definition regular_combat (s : side) (attacker : Character.ref) (b : t) : t :=
  let opponent := player (other s) b in
  let a := heap b attacker in
  let b :=
    match py_max (fun x => Character.atk (heap b x)) (Player.field opponent) with
    | Some target =>
        let damage := Character.atk a in
        let '(actual_damage, target') := Character.take_damage (heap b target) damage in
        let b := set_heap (<[target := target']> (heap b)) b in
        let b := _update_damage_stats (Character.name a) actual_damage direct_damage b in
        log (LogAttacks (Character.name a) (Character.name target') actual_damage) b
    | None =>
        let damage := Character.atk a in
        let b := set_player (other s) (Player.take_damage opponent damage) b in
        let b := _update_damage_stats (Character.name a) damage direct_damage b in
        log (LogAttacksDirectly (Character.name a) damage) b
    end in
  set_heap (<[attacker := Character.add_energy (heap b attacker)]> (heap b)) b.

(** One round of the loop [for attacker in active_player.field]. *)
Definition combat_step (s : side) (b : t) (attacker : Character.ref) : t :=
  let a := heap b attacker in
  match get_ultimate_ability (Character.name a) (Character.variant a) with
  | Raised _ => log (LogCombatFailed (Character.name a)) b
  | Returned ultimate =>
      let opponent := player (other s) b in
      match ultimate, py_max (fun x => Character.current_health (heap b x))
                             (Player.field opponent) with
      | Some _, Some target =>
          if Character.ultimate_energy_cost a <=? Character.energy a then
            let '(damage, h) := Character.use_ultimate (heap b) attacker target in
            let b := set_heap h b in
            if 0 <? damage then
              let b := _update_damage_stats (Character.name a) damage ultimate_damage b in
              log (LogUltimate (Character.name a) (Character.name (heap b target)) damage) b
            else regular_combat s attacker b
          else regular_combat s attacker b
      | _, _ => regular_combat s attacker b
      end
  end.

Definition combat_phase (s : side) (b : t) : t :=
  foldl (combat_step s) b (Player.field (player s b)).

Definition _process_actions (s : side) (b : t) : t :=
  combat_phase s (play_phase s b).

Definition regenerate_step (b : t) (character : Character.ref) : t :=
  set_heap (<[character := Character.regenerate_health (heap b character)]> (heap b)) b.

(** [process_turn]: the flag returned and the battle afterwards. *)
Definition process_turn (s : side) (b : t) : bool * t :=
  let b :=
    if 0 <? Deck.cards_remaining (Player.deck (player s b))
    then set_player s (snd (Player.draw_cards (player s b) 1)) b
    else b in
  let b := set_player s (Player.add_energy (player s b) 1) b in
  let b := _process_actions s b in
  let b := foldl regenerate_step b (Player.field (player s b)) in
  (Player.life_points (player (other s) b) <=? 0, b).

Definition max_turns : Z := 50.

Definition fresh_placements : gmap string Z :=
  <["Player 2"%string := 0]> (<["Player 1"%string := 0]> ∅).

(** The winner picked when the loop of [simulate_battle] runs out. *)
Definition winner_at_cap (b : t) : side :=
  if Player.life_points (player2 b) <? Player.life_points (player1 b)
  then P1 else P2.

(** The body of the loop: [Some] winner when one of the two turns
    ends the battle, else the battle with the turn counter bumped. *)
Definition turn_pair (b : t) : option side * t :=
  let b := set_placements_this_turn fresh_placements b in
  let '(won1, b) := process_turn P1 b in
  if won1 then (Some P1, b)
  else
    let '(won2, b) := process_turn P2 b in
    if won2 then (Some P2, b)
    else (None, set_current_turn (current_turn b + 1) b).

(** [simulate_battle]: the [while] loop runs on fuel, one unit a
    round; [None] when the fuel runs out before the loop ends. *)
Fixpoint simulate_battle (fuel : nat) (b : t) : option (side * t) :=
  match fuel with
  | O => None
  | S fuel' =>
      if current_turn b <=? max_turns then
        match turn_pair b with
        | (Some w, b') => Some (w, b')
        | (None, b') => simulate_battle fuel' b'
        end
      else Some (winner_at_cap b, b)
  end.

(** [process_combat(attacker, defender)]: the body of the combat loop
    as a method of its own, with no [try] around it.  [s] is the side
    of the attacker, the defender is the other player; every object of
    the store is a [Character], and [random.random() < 1.0] holds at
    every draw. *)
Definition process_combat (s : side) (b : t) (attacker : Character.ref) : exc t :=
  let a := heap b attacker in
  ultimate ← get_ultimate_ability (Character.name a) (Character.variant a);
  let defender := player (other s) b in
  match ultimate, py_max (fun x => Character.current_health (heap b x))
                         (Player.field defender) with
  | Some _, Some target =>
      if Character.ultimate_energy_cost a <=? Character.energy a then
        let '(damage, h) := Character.use_ultimate (heap b) attacker target in
        let b := set_heap h b in
        if 0 <? damage then
          let b := _update_damage_stats (Character.name a) damage ultimate_damage b in
          Returned
            (log (LogUltimate (Character.name a) (Character.name (heap b target)) damage) b)
        else Returned (regular_combat s attacker b)
      else Returned (regular_combat s attacker b)
  | _, _ => Returned (regular_combat s attacker b)
  end.

End Engine.

(** [Battle.__init__] on two players whose decks are drawn already:
    the statistics are keyed by the names of the cards left in the two
    decks. *)
Definition init (h : Character.store) (player1 player2 : Player.t) : t :=
  let all_cards :=
    (fun r => Character.name (h r)) <$>
      (Deck.cards (Player.deck player1) ++ Deck.cards (Player.deck player2)) in
  let zeros := foldr (fun n m => <[n := 0]> m) (∅ : gmap string Z) all_cards in
  mk h
     (Player.set_energy 1 (Player.set_life_points 2000 player1))
     (Player.set_energy 1 (Player.set_life_points 2000 player2))
     (mkDamageStats zeros zeros zeros 0)
     (foldr (fun n m => <[n := mkCardTracker 0 0 0]> m) ∅ all_cards)
     (foldr (fun n m => <[n := mkAbilityUsage [] 0]> m) ∅ all_cards)
     [] 1 fresh_placements.


End Battle.

(** ** balance_simulator.py *)

Module BalanceSimulator.

Definition COST_DISTRIBUTION_TOLERANCE : Q := 1 # 10.
Definition ULTIMATE_POWER_FACTOR : Q := 3 # 10.

(** A DataFrame with the default index: row [i] has index [i]. *)
Definition Table := list CardRow.

Definition set_Cost (v : Z) (r : CardRow) : CardRow :=
  mkCardRow (Name r) (Variant r) v (ATK r) (DEF r) (Effect r) (Ultimate_Cost r).
Definition set_ATK (v : Z) (r : CardRow) : CardRow :=
  mkCardRow (Name r) (Variant r) (Cost r) v (DEF r) (Effect r) (Ultimate_Cost r).
Definition set_DEF (v : Z) (r : CardRow) : CardRow :=
  mkCardRow (Name r) (Variant r) (Cost r) (ATK r) v (Effect r) (Ultimate_Cost r).

(** The statistics of a card over the battles of an iteration, and the
    dictionary [stats['card_stats']] in insertion order. *)
Record CardStats := mkCardStats {
  wins : Z;
  plays : Z;
  total_damage : Z;
  battles : Z
}.

Definition Stats := list (string * CardStats).

Inductive Reason :=
| ScaledDown (max_allowed : Z)
| HighDamage
| ReducingATK
| LowDamage
| BuffingStats.

Record Adjustment := mkAdjustment {
  card_idx : nat;
  cost_adjust : Z;
  atk_adjust : Z;
  def_adjust : Z;
  reason : Reason
}.

(** A score, or [float('inf')]. *)
Inductive score := Finite (q : Q) | Infinity.

(** [x > best]: nothing is greater than infinity. *)
Definition score_gt (x : Q) (best : score) : bool :=
  match best with
  | Finite b => Qlt_bool b x
  | Infinity => false
  end.

Record t := mk {
  original_cards : Table;
  cards_df : Table;
  target_win_rate : Q;
  win_rate_tolerance : Q;
  best_balance : option Table;
  best_balance_score : score;
  current_adjustments : list Adjustment
}.

Definition set_cards_df (df : Table) (self : t) : t :=
  mk (original_cards self) df (target_win_rate self) (win_rate_tolerance self)
     (best_balance self) (best_balance_score self) (current_adjustments self).

Definition set_best (df : Table) (x : Q) (self : t) : t :=
  mk (original_cards self) (cards_df self) (target_win_rate self)
     (win_rate_tolerance self) (Some df) (Finite x) (current_adjustments self).

Definition set_current_adjustments (a : list Adjustment) (self : t) : t :=
  mk (original_cards self) (cards_df self) (target_win_rate self)
     (win_rate_tolerance self) (best_balance self) (best_balance_score self) a.

(** [__init__]: the working table is the file balanced_chars.csv when
    there is one, else a copy of the cards given. *)
Definition init (initial_cards_df : Table) (target_win_rate win_rate_tolerance : Q)
    (working_file : option Table) : t :=
  mk initial_cards_df (default initial_cards_df working_file)
     target_win_rate win_rate_tolerance None Infinity [].

(** *** The cost distribution *)

Definition count_cost (cost : Z) (df : Table) : Z :=
  Z.of_nat (length (filter (fun r => Cost r = cost) df)).

(** [get_cost_distribution]: the share of each cost from 1 to 6; the
    division raises on an empty table. *)
Definition get_cost_distribution (df : Table) : exc (gmap Z Q) :=
  match df with
  | [] => Raised ZeroDivisionError
  | _ =>
      let total_cards := Z.of_nat (length df) in
      Returned (foldl (fun d cost =>
                         <[cost := (inject_Z (count_cost cost df) / inject_Z total_cards)%Q]> d)
                      ∅ [1; 2; 3; 4; 5; 6])
  end.

Definition dist_get (d : gmap Z Q) (cost : Z) : Q := default 0%Q (d !! cost).

(** *** Normalization *)

Definition round_to_nearest_50 (value : Q) : Z :=
  Z.max 100 (py_round (value / 50) * 50).

Definition get_max_total_stats (cost : Z) : Z := cost * 200.

(** One round of the loop [for idx in self.cards_df.index]: the row
    afterwards and the adjustment recorded, if any.  With a total of 0
    above the cap the scale factor is infinite and [round] raises. *)
Definition normalize_row (idx : nat) (row : CardRow) : exc (CardRow * list Adjustment) :=
  let current_atk := ATK row in
  let current_def := DEF row in
  let total_stats := current_atk + current_def in
  let max_allowed := get_max_total_stats (Cost row) in
  if max_allowed <? total_stats then
    if total_stats =? 0 then Raised ValueError
    else
      let scale_factor := (inject_Z max_allowed / inject_Z total_stats)%Q in
      let new_atk := round_to_nearest_50 (inject_Z current_atk * scale_factor) in
      let new_def := round_to_nearest_50 (inject_Z current_def * scale_factor) in
      Returned (set_DEF new_def (set_ATK new_atk row),
                [mkAdjustment idx 0 (new_atk - current_atk) (new_def - current_def)
                   (ScaledDown max_allowed)])
  else Returned (row, []).

Fixpoint normalize_from (idx : nat) (rows : list CardRow)
  : exc (Table * list Adjustment) :=
  match rows with
  | [] => Returned ([], [])
  | row :: rows' =>
      '(row', adj) ← normalize_row idx row;
      '(rest, adjs) ← normalize_from (S idx) rows';
      Returned (row' :: rest, adj ++ adjs)
  end.

(** The normalization pass over the table. *)
Definition normalize (df : Table) : exc (Table * list Adjustment) :=
  normalize_from 0 df.

(** *** The tuning of one card *)

Section Tuning.

Variable table : ultimate_abilities.methods.

Definition effect_number (v : ultimate_abilities.pyvalue) : option Q :=
  match v with
  | ultimate_abilities.PyNum q => Some q
  | ultimate_abilities.PyBool b => Some (if b then 1 else 0)%Q
  | _ => None
  end.

(** The score of one effect; [None] when the arithmetic raises. *)
Definition effect_power (effect : string) (value : ultimate_abilities.pyvalue)
  : option Q :=
  if String.eqb effect "flat_damage" then
    (fun v => Qmin (v / 1000) (3 # 10)) <$> effect_number value
  else if String.eqb effect "aoe_damage" then Some (3 # 10)%Q
  else if String.eqb effect "heal_self" then
    (fun v => Qmin (v / 500) (2 # 10)) <$> effect_number value
  else if String.eqb effect "ignore_defense" then Some (2 # 10)%Q
  else if String.eqb effect "stun" then Some (2 # 10)%Q
  else if String.eqb effect "summon" then Some (3 # 10)%Q
  else Some (1 # 10)%Q.

(** [evaluate_ultimate_power], its first component: 0.0 when no row
    has the name, when the card has no ultimate and when anything
    raises. *)
Definition evaluate_ultimate_power (df : Table) (card_name : string) : Q :=
  match List.find (fun r => String.eqb (Name r) card_name) df with
  | None => 0
  | Some row =>
      match Character.get_ultimate_ability table (Name row) (Variant row) with
      | None => 0
      | Some ultimate =>
          let start := Qmin (ultimate_abilities.damage_multiplier ultimate / 3) (4 # 10) in
          match foldl (fun acc e =>
                         p ← acc; q ← effect_power (fst e) (snd e); Some (p + q)%Q)
                      (Some start) (ultimate_abilities.effects ultimate) with
          | Some power_score => Qmin power_score 1
          | None => 0
          end
      end
  end.

(** [calculate_safe_stat_adjustment] with both proposals 0, as it is
    called. *)
Definition calculate_safe_stat_adjustment (max_allowed current_atk current_def : Z)
  : exc (Z * Z) :=
  let new_total := current_atk + current_def in
  if max_allowed <? new_total then
    if new_total =? 0 then Raised ValueError
    else Returned (round_to_nearest_50 (inject_Z current_atk) - current_atk,
                   round_to_nearest_50 (inject_Z current_def) - current_def)
  else Returned (0, 0).

(** The test on the cost distribution: the shares of the working
    table with one card moved from [current_cost] to [new_cost],
    against the shares of the original table (which the source
    computes again at every cost, with the same result). *)
Definition cost_change_allowed (self : t) (current_cost new_cost : Z) : exc bool :=
  new_dist ← get_cost_distribution (cards_df self);
  let step := (1 / inject_Z (Z.of_nat (length (cards_df self))))%Q in
  let new_dist := <[current_cost := (dist_get new_dist current_cost - step)%Q]> new_dist in
  let new_dist := <[new_cost := (dist_get new_dist new_cost + step)%Q]> new_dist in
  original ← get_cost_distribution (original_cards self);
  Returned (forallb (fun cost =>
                       Qle_bool (Qabs (dist_get new_dist cost - dist_get original cost))
                                COST_DISTRIBUTION_TOLERANCE)
                    [1; 2; 3; 4; 5; 6]).

Definition skipped (card_id : string) (card_stats : CardStats) : bool :=
  String.eqb card_id "Player 1" || String.eqb card_id "Player 2"
  || (plays card_stats <? 5).

Definition find_card (df : Table) (name variant : string) : option (nat * CardRow) :=
  list_find (fun r => Name r = name /\ Variant r = variant) df.

(** One round of the loop over [stats['card_stats'].items()]: the
    adjustments it appends. *)
Definition tune_card (self : t) (card_id : string) (card_stats : CardStats)
  : exc (list Adjustment) :=
  if skipped card_id card_stats then Returned []
  else
    let name := split_head " (" card_id in
    let variant := py_slice card_id (py_find "(" card_id + 1) (py_find ")" card_id) in
    match find_card (cards_df self) name variant with
    | None => Returned []
    | Some (card_idx, current_card) =>
        let current_cost := Cost current_card in
        let max_allowed := get_max_total_stats current_cost in
        let win_rate := (inject_Z (wins card_stats) / inject_Z (plays card_stats))%Q in
        let avg_damage :=
          (inject_Z (total_damage card_stats) / inject_Z (plays card_stats))%Q in
        let ultimate_power := evaluate_ultimate_power (cards_df self) name in
        let expected_win_rate :=
          (target_win_rate self * (1 + ultimate_power * ULTIMATE_POWER_FACTOR))%Q in
        let win_rate_diff := (win_rate - expected_win_rate)%Q in
        if Qlt_bool (win_rate_tolerance self) (Qabs win_rate_diff) then
          let current_atk := ATK current_card in
          let current_def := DEF current_card in
          if Qlt_bool 0 win_rate_diff then
            if current_cost <? 6 then
              allowed ← cost_change_allowed self current_cost (current_cost + 1);
              if allowed
                 && Qlt_bool (inject_Z current_cost * (100 * (1 - ultimate_power)))%Q
                             avg_damage
              then Returned [mkAdjustment card_idx 1 0 0 HighDamage]
              else
                '(new_atk, new_def) ←
                  calculate_safe_stat_adjustment max_allowed current_atk current_def;
                if (new_atk <? current_atk) || (new_def <? current_def)
                then Returned [mkAdjustment card_idx 0 (new_atk - current_atk)
                                 (new_def - current_def) ReducingATK]
                else Returned []
            else Returned []
          else
            if 1 <? current_cost then
              allowed ← cost_change_allowed self current_cost (current_cost - 1);
              if allowed
                 && Qlt_bool avg_damage
                             (inject_Z current_cost * (75 * (1 - ultimate_power)))%Q
              then Returned [mkAdjustment card_idx (-1) 0 0 LowDamage]
              else
                '(new_atk, new_def) ←
                  calculate_safe_stat_adjustment max_allowed current_atk current_def;
                if (current_atk <? new_atk) || (current_def <? new_def)
                then Returned [mkAdjustment card_idx 0 (new_atk - current_atk)
                                 (new_def - current_def) BuffingStats]
                else Returned []
            else Returned []
        else Returned []
    end.

Fixpoint tune_cards (self : t) (stats : Stats) : exc (list Adjustment) :=
  match stats with
  | [] => Returned []
  | (card_id, card_stats) :: stats' =>
      adj ← tune_card self card_id card_stats;
      adjs ← tune_cards self stats';
      Returned (adj ++ adjs)
  end.

(** One round of the loop [for adj in adjustments]. *)
Definition apply_adjustment (df : Table) (adj : Adjustment) : Table :=
  match df !! card_idx adj with
  | None => df
  | Some row =>
      let row :=
        if cost_adjust adj =? 0 then row
        else set_Cost (Z.max 1 (Z.min 6 (Cost row + cost_adjust adj))) row in
      let row :=
        if atk_adjust adj =? 0 then row
        else set_ATK (round_to_nearest_50 (inject_Z (ATK row + atk_adjust adj))) row in
      let row :=
        if def_adjust adj =? 0 then row
        else set_DEF (round_to_nearest_50 (inject_Z (DEF row + def_adjust adj))) row in
      <[card_idx adj := row]> df
  end.

(** [adjust_card_stats]: normalize, collect the adjustments of the
    cards against the normalized table, apply all of them, normalize
    again. *)
Definition adjust_card_stats (self : t) (stats : Stats) : exc t :=
  '(df, adjustments) ← normalize (cards_df self);
  let self := set_cards_df df self in
  tuned ← tune_cards self stats;
  let adjustments := adjustments ++ tuned in
  let self := set_current_adjustments adjustments self in
  let df := foldl apply_adjustment (cards_df self) adjustments in
  '(df, _) ← normalize df;
  Returned (set_cards_df df self).

(** *** The balance score *)

Definition expected_power (cost : Z) : Z :=
  if cost =? 1 then 150 else if cost =? 2 then 200 else if cost =? 3 then 300
  else if cost =? 4 then 450 else if cost =? 5 then 650 else if cost =? 6 then 900
  else if cost =? 7 then 1200 else 150.

Definition _calculate_cost_efficiency (card_data : CardRow) : Q :=
  let base_power := (inject_Z (ATK card_data) + inject_Z (DEF card_data) * (6 # 10))%Q in
  let efficiency := (base_power / inject_Z (expected_power (Cost card_data)))%Q in
  Qmin 10 (Qmax 0 (efficiency * 10)).

Definition card_score (self : t) (stats : Stats) (card_id : string)
    (card_stats : CardStats) : exc Q :=
  let win_rate := (inject_Z (wins card_stats) / inject_Z (plays card_stats))%Q in
  let win_rate_score :=
    if Qle_bool (Qabs (win_rate - target_win_rate self)) (1 # 10) then 40%Q else 0%Q in
  let damage_score :=
    Qmin 30 (inject_Z (total_damage card_stats) / inject_Z (plays card_stats) / 10) in
  let total_plays := foldr (fun e acc => plays (snd e) + acc) 0 stats in
  let play_rate := (inject_Z (plays card_stats) / inject_Z total_plays)%Q in
  let play_rate_score := Qmin 20 (play_rate * 200) in
  let name := split_head " (" card_id in
  match List.find (fun r => String.eqb (Name r) name) (cards_df self) with
  | None => Raised IndexError
  | Some card_data =>
      Returned (win_rate_score + damage_score + play_rate_score
                + _calculate_cost_efficiency card_data)%Q
  end.

Fixpoint card_scores (self : t) (all rest : Stats) : exc (list Q) :=
  match rest with
  | [] => Returned []
  | (card_id, card_stats) :: rest' =>
      if skipped card_id card_stats then card_scores self all rest'
      else
        x ← card_score self all card_id card_stats;
        xs ← card_scores self all rest';
        Returned (x :: xs)
  end.

(** [calculate_balance_score]: the mean of the scores of the cards
    with at least 5 plays, 0 when there is none. *)
Definition calculate_balance_score (self : t) (stats : Stats) : exc Q :=
  xs ← card_scores self stats stats;
  match xs with
  | [] => Returned 0%Q
  | _ => Returned (foldr Qplus 0 xs / inject_Z (Z.of_nat (length xs)))%Q
  end.

(** *** The iterations *)

(** The statistics that the battles of an iteration produce from the
    working table: they depend on the random decks. *)
Variable _run_single_iteration : nat -> Table -> Stats.

(** The reports written at the end; they may raise. *)
Variable _generate_final_analysis : t -> exc unit.

(** The body of the loop [for iteration in range(num_iterations)]. *)
Definition iteration_step (iteration : nat) (self : t) : exc t :=
  let iteration_stats := _run_single_iteration iteration (cards_df self) in
  balance_score ← calculate_balance_score self iteration_stats;
  let self :=
    if score_gt balance_score (best_balance_score self)
    then set_best (cards_df self) balance_score self
    else self in
  adjust_card_stats self iteration_stats.

Fixpoint iterations (done todo : nat) (self : t) : exc t :=
  match todo with
  | O => Returned self
  | S todo' =>
      self ← iteration_step done self;
      iterations (S done) todo' self
  end.

(** [run_balance_iterations]: the table returned, [None] for the
    [None] of Python, which is also what the [except] clause returns. *)
Definition run_balance_iterations (self : t) (num_iterations : nat) : option Table :=
  match iterations 0 num_iterations self with
  | Raised _ => None
  | Returned self =>
      match _generate_final_analysis self with
      | Raised _ => None
      | Returned _ => best_balance self
      end
  end.

End Tuning.

(** *** The detailed battle *)

(** The lines of the log that [_process_card_playing] returns. *)
Inductive PlayLine :=
| PlayingCards
| NoPlayableCards
| Played (name variant : string)
| EnergyRemaining (energy : Z).

(** One round of the loop [for card in playable_cards[:2]]: the
    result of [play_card] is not looked at. *)
Definition card_playing_step (h : Character.store) (st : Player.t * list PlayLine)
    (card : Character.ref) : Player.t * list PlayLine :=
  let '(player, lines) := st in
  if Character.cost (h card) <=? Player.energy player then
    let player := snd (Player.play_card h player card) in
    (player,
     lines ++ [Played (Character.name (h card)) (Character.variant (h card));
               EnergyRemaining (Player.energy player)])
  else (player, lines).

(** [_process_card_playing]: the player afterwards and the log. *)
Definition _process_card_playing (h : Character.store) (player : Player.t)
  : Player.t * list PlayLine :=
  let lines := [PlayingCards] in
  let playable_cards :=
    filter (fun card => Character.cost (h card) <= Player.energy player)
           (Player.hand player) in
  match playable_cards with
  | [] => (player, lines ++ [NoPlayableCards])
  | _ => foldl (card_playing_step h) (player, lines) (take 2 playable_cards)
  end.

End BalanceSimulator.

(** ** Vocabulary of the statements *)

(** The play phase as the design document words it.  The candidates
    are the first two cards of the hand, in hand order, that the energy
    at the start of the phase pays. *)
Definition candidates (h : Character.store) (energy : Z) (hand : list Character.ref)
  : list Character.ref :=
  take 2 (filter (fun c => Character.cost (h c) <= energy) hand).

(** Each candidate is tried in turn against the energy and the room on
    the field that the plays before it have left; one that fails is
    skipped and the next one is tried. *)
Fixpoint played_cards (h : Character.store) (energy : Z) (on_field : nat)
    (cards : list Character.ref) : list Character.ref :=
  match cards with
  | [] => []
  | c :: cards' =>
      if (Character.cost (h c) <=? energy) && (Z.of_nat on_field <? 5)
      then c :: played_cards h (energy - Character.cost (h c)) (S on_field) cards'
      else played_cards h energy on_field cards'
  end.



(** The battle after [n] rounds of the loop of [simulate_battle], and
    whether none of them produced a winner. *)
Fixpoint after_rounds (lookup : ultimate_abilities.lookup_fn) (n : nat) (b : Battle.t)
  : Battle.t :=
  match n with
  | O => b
  | S n' => after_rounds lookup n' (snd (Battle.turn_pair lookup b))
  end.

Fixpoint no_winner_within (lookup : ultimate_abilities.lookup_fn) (n : nat) (b : Battle.t)
  : bool :=
  match n with
  | O => true
  | S n' =>
      match Battle.turn_pair lookup b with
      | (None, b') => no_winner_within lookup n' b'
      | (Some _, _) => false
      end
  end.

(** The graveyards of the two decks. *)
Definition graveyards (b : Battle.t) : list Character.ref * list Character.ref :=
  (Deck.graveyard (Player.deck (Battle.player1 b)),
   Deck.graveyard (Player.deck (Battle.player2 b))).

(** What no step of a turn writes: the turn counter, the graveyards and
    the names of the players. *)
Definition untouched (b : Battle.t)
  : Z * (list Character.ref * list Character.ref) * (string * string) :=
  (Battle.current_turn b, graveyards b,
   (Player.name (Battle.player1 b), Player.name (Battle.player2 b))).

(** With one card in the pool, the deck under construction holds as many
    characters as the card has copies, three at most. *)
Definition copies_only (card : CardRow) (st : Deck.BuildState) : Prop :=
  Z.of_nat (length (Deck.selected_cards st)) = Deck.count_of card st
  /\ Deck.count_of card st <= 3.

(** The cost under which [build_initial_deck] files a card. *)
Definition clamped_cost (card : CardRow) : Z := Z.min (Z.max (Cost card) 1) 7.

(** The pool of the scenario: one card of cost 1 with ATK 100 and DEF 100. *)
Definition lone_card : CardRow := mkCardRow "Panda" "Standard" 1 100 100 "" 1.

(** A card within the cap of its cost. *)
Definition within_cap (row : CardRow) : Prop :=
  ATK row + DEF row <= BalanceSimulator.get_max_total_stats (Cost row).

(** ** Sample tables *)

(** A card of cost 1 above its cap of 200. *)
Definition heavy_card : CardRow := mkCardRow "Panda" "Standard" 1 300 50 "" 1.

(** Fourteen cards of cost 2 with ATK 100 and DEF 100, none of which has
    an ultimate of its own. *)
Definition fourteen_cards : BalanceSimulator.Table :=
  (fun n => mkCardRow n "Standard" 2 100 100 "" 1) <$>
    ["Mahito"; "Jogo"; "Hanami"; "Dagon"; "Choso"; "Eso"; "Kechizu"; "Panda";
     "Momo"; "Miwa"; "Mechamaru"; "Ijichi"; "Nitta"; "Ino"]%string.

(** The statistics of an iteration in which two of them were played ten
    times each and never won nor dealt damage. *)
Definition weak_stats : BalanceSimulator.Stats :=
  [("Mahito (Standard)", BalanceSimulator.mkCardStats 0 10 0 10);
   ("Jogo (Standard)", BalanceSimulator.mkCardStats 0 10 0 10)]%string.

(** The simulator as [run_balance_simulator] creates it, with no working
    file on disk. *)
Definition fresh_simulator (cards : BalanceSimulator.Table) : BalanceSimulator.t :=
  BalanceSimulator.init cards (1 # 2) (5 # 100) None.

(** ** Sample battles *)

(** The hand-written ultimates, cut down to the method of Gojo Satoru. *)
Definition sample_table : ultimate_abilities.methods := fun key variant =>
  if String.eqb key "gojo satoru"
  then Some (ultimate_abilities.gojo_satoru_ultimate variant)
  else None.

(** The objects of the samples: a Gojo Satoru (Standard), cards without
    an ultimate of their own, and at 3 a card with DEF 0. *)
Definition sample_heap : Character.store := fun r =>
  match r with
  | 0%nat => Character.init sample_table "Gojo Satoru" "Standard" 2 100 300 "" 1
  | 1%nat => Character.init sample_table "Yuji Itadori" "Standard" 2 200 200 "" 1
  | 2%nat => Character.init sample_table "Panda" "Standard" 1 100 100 "" 1
  | 3%nat => Character.init sample_table "Cursed Doll" "Standard" 1 100 0 "" 1
  | _ => Character.init sample_table "Cursed Spirit" "Grade 4" 1 100 150 "" 1
  end.

(** A battle at its start: each player has drawn five cards of seven. *)
Definition opening_battle : Battle.t :=
  Battle.init sample_heap
    (Player.init "Player 1" (Deck.mk [0; 1; 2; 4; 5; 6; 7]%nat []))
    (Player.init "Player 2" (Deck.mk [8; 9; 10; 11; 12; 13; 14]%nat [])).

(** Player 1 about to play with 3 energy. *)
Definition play_battle : Battle.t :=
  Battle.set_player Battle.P1
    (Player.set_energy 3 (Battle.player1 opening_battle)) opening_battle.


(** Gojo Satoru (Standard) on the field of player 1 with 3 energy, a
    living Cursed Spirit on the field of player 2. *)
Definition ultimate_battle : Battle.t :=
  let b := opening_battle in
  let b := Battle.set_player Battle.P1 (Player.set_field [0%nat] (Battle.player1 b)) b in
  let b := Battle.set_player Battle.P2 (Player.set_field [8%nat] (Battle.player2 b)) b in
  Battle.set_heap (<[0%nat := Character.set_energy 3 (sample_heap 0%nat)]> sample_heap) b.

(** Player 1 holds the card with DEF 0, which enters play with no health. *)
Definition doll_battle : Battle.t :=
  Battle.init sample_heap
    (Player.init "Player 1" (Deck.mk [3; 4; 5; 6; 7; 15; 16]%nat []))
    (Player.init "Player 2" (Deck.mk [8; 9; 10; 11; 12; 13; 14]%nat [])).

(** Yuji Itadori (ATK 200) on the field of player 1 facing a Cursed Spirit
    with 150 health on the field of player 2. *)
Definition duel_battle : Battle.t :=
  let b := opening_battle in
  let b := Battle.set_player Battle.P1 (Player.set_field [1%nat] (Battle.player1 b)) b in
  Battle.set_player Battle.P2 (Player.set_field [8%nat] (Battle.player2 b)) b.

(** A lookup that returns and finds no ultimate. *)
Definition no_ultimate : ultimate_abilities.lookup_fn := fun _ _ => Returned None.

(** ** Vocabulary of the invariants *)

(** The attributes of a character that nothing writes after its
    creation. *)
Definition static (c : Character.t) :=
  (Character.name c, Character.variant c, Character.cost c, Character.atk c,
   Character.def_val c, Character.max_health c, Character.effect c,
   Character.ultimate_energy_cost c, Character.ultimate_damage c,
   Character.status_effects c).

(** A character with sensible numbers: no negative cost, attack or
    ultimate, a health between 0 and its maximum, an energy between 0
    and 10. *)
Definition well_formed (c : Character.t) : Prop :=
  0 <= Character.cost c
  /\ 0 <= Character.atk c
  /\ 0 <= Character.ultimate_damage c
  /\ 0 <= Character.ultimate_energy_cost c
  /\ 0 <= Character.current_health c <= Character.max_health c
  /\ 0 <= Character.energy c <= 10.

(** A player with an energy within its bounds, at most five characters
    on the field and no negative life points. *)
Definition player_sound (p : Player.t) : Prop :=
  0 <= Player.energy p <= Player.max_energy p
  /\ (length (Player.field p) <= 5)%nat
  /\ 0 <= Player.life_points p.

Definition sound (b : Battle.t) : Prop :=
  (forall r, well_formed (Battle.heap b r))
  /\ player_sound (Battle.player1 b)
  /\ player_sound (Battle.player2 b).

(** The life points of the two players. *)
Definition life_points (b : Battle.t) : Z * Z :=
  (Player.life_points (Battle.player1 b), Player.life_points (Battle.player2 b)).

(** [b'] continues the sound battle [b]: it is sound, no character
    without health in [b] has health in [b'], and no player has more
    life points than in [b]. *)
Definition continues (b b' : Battle.t) : Prop :=
  sound b ->
  sound b'
  /\ (forall r, Character.is_alive (Battle.heap b r) = false ->
                Character.is_alive (Battle.heap b' r) = false)
  /\ Player.life_points (Battle.player1 b') <= Player.life_points (Battle.player1 b)
  /\ Player.life_points (Battle.player2 b') <= Player.life_points (Battle.player2 b).

(** ** Further samples *)

(** A lookup that returns: the hand-written method of the character,
    when it has one. *)
Definition working_lookup : ultimate_abilities.lookup_fn := fun name variant =>
  Returned (Character.get_ultimate_ability sample_table name variant).

(** Gojo Satoru (Shibuya Incident), whose ultimate has the multiplier 0,
    on the field of player 1 with 3 energy for a cost of 2, facing a
    living Cursed Spirit. *)
Definition idle_battle : Battle.t :=
  let gojo :=
    Character.init sample_table "Gojo Satoru" "Shibuya Incident" 4 300 300 "" 2 in
  Battle.set_heap (<[0%nat := Character.set_energy 3 gojo]> sample_heap) ultimate_battle.


(** ** Vocabulary of the decks *)

(** The key under which [build_initial_deck] counts a character, and
    the number of characters of a deck with a given key. *)
Definition id_of (c : Character.t) : string :=
  card_id (Character.name c) (Character.variant c).

Definition copies (id : string) (deck : list Character.t) : Z :=
  Z.of_nat (length (filter (fun c => id_of c = id) deck)).

(** The keys of the cards of a pool, each once. *)
Definition pool_ids (cards_df : list CardRow) : list string :=
  remove_dups ((fun card => card_id (Name card) (Variant card)) <$> cards_df).

(** The deck under construction agrees with its counters: each counter
    is the number of characters selected under its key and is 3 at most,
    and every character selected has the key of a card of the pool. *)
Definition counted (pool : list CardRow) (st : Deck.BuildState) : Prop :=
  (forall id, copies id (Deck.selected_cards st)
              = default 0 (Deck.card_counts st !! id))
  /\ (forall id, default 0 (Deck.card_counts st !! id) <= 3)
  /\ Forall (fun c => id_of c ∈ pool_ids pool) (Deck.selected_cards st).

(** ** Vocabulary of the normalization *)


(** ** Sample pool *)

(** A pool of two cards, and the deck that the draws 0, 1, 2, ... make
    of it. *)
Definition second_card : CardRow := mkCardRow "Mahito" "Standard" 2 150 100 "" 1.

Definition two_cards : list CardRow := [lone_card; second_card].

Definition two_card_deck : list Character.t :=
  Deck.create_character_from_data sample_table <$>
    [lone_card; lone_card; second_card; second_card; second_card; lone_card].

(** ** Properties *)

(** C9. After [take_damage(amount)] the health is
    [max(0, health - amount)] and the value returned is the health lost. *)
Theorem take_damage_clamps (c : Character.t) (amount : Z) :
  let '(actual, c') := Character.take_damage c amount in
  Character.current_health c' = Z.max 0 (Character.current_health c - amount)
  /\ actual = Character.current_health c - Character.current_health c'.
Proof.
  unfold Character.take_damage. cbn. lia.
Qed.

(** An attack of 500 on a character with 300 health deals 300 and leaves
    it without health. *)
Example take_damage_500_on_300 :
  let defender := Character.init sample_table "Panda" "Standard" 3 200 300 "" 1 in
  let '(actual, defender') := Character.take_damage defender 500 in
  actual = 300
  /\ Character.current_health defender' = 0
  /\ Character.is_alive defender' = false.
Proof. vm_compute. auto. Qed.

(** C10. [heal] with a non-negative amount leaves the character as it
    was: [def_val] is set to its own value and no other attribute is
    written, so no health is restored. *)
Theorem heal_changes_nothing (c : Character.t) (amount : Z) :
  0 <= amount ->
  Character.heal c amount = c
  /\ Character.def_val (Character.heal c amount)
     = Z.min (Character.def_val c) (Character.def_val c + amount)
  /\ Character.current_health (Character.heal c amount) = Character.current_health c.
Proof.
  intros Hamount. destruct c as [n v co a d mh ch ef en uc ud se].
  unfold Character.heal, Character.set_def_val. cbn.
  replace (Z.min d (d + amount)) with d by lia. auto.
Qed.

Lemma heal_changes_nothing_witness :
  let c := Character.init sample_table "Yuji Itadori" "Standard" 2 200 150 "" 1 in
  let c := Character.set_current_health 40 c in
  Character.heal c 100 = c
  /\ Character.def_val (Character.heal c 100) = Z.min 150 (150 + 100)
  /\ Character.current_health (Character.heal c 100) = 40.
Proof.
  apply (heal_changes_nothing
           (Character.set_current_health 40
              (Character.init sample_table "Yuji Itadori" "Standard" 2 200 150 "" 1)) 100).
  lia.
Defined.

(** *** The play phase *)

Section PlayPhase.

Import Battle.




End PlayPhase.

(** *** What a turn leaves alone *)

Section Frames.

Import Battle.

Variable lookup : ultimate_abilities.lookup_fn.

Lemma foldl_frame {A B X} (f : A -> B -> A) (obs : A -> X) :
  (forall a x, obs (f a x) = obs a) ->
  forall l a, obs (foldl f a l) = obs a.
Proof.
  intros Hf l. induction l as [|x l IH]; intros a; cbn; [reflexivity|].
  rewrite IH. apply Hf.
Qed.

Local Ltac crush_step :=
  repeat match goal with
         | |- context [match ?x with _ => _ end] => destruct x eqn:?
         end;
  try reflexivity.

Lemma play_step_untouched s b c : untouched (play_step s b c) = untouched b.
Proof.
  unfold untouched, play_step, Player.play_card.
  destruct s; cbn; crush_step.
Qed.

Lemma regular_combat_untouched s a b :
  untouched (regular_combat s a b) = untouched b.
Proof.
  unfold untouched, regular_combat, _update_damage_stats, Character.take_damage.
  destruct s; cbn; crush_step.
Qed.

Lemma regular_combat_fields s a b :
  Player.field (player1 (regular_combat s a b)) = Player.field (player1 b)
  /\ Player.field (player2 (regular_combat s a b)) = Player.field (player2 b).
Proof.
  unfold regular_combat, _update_damage_stats, Character.take_damage.
  destruct s; cbn; crush_step; auto.
Qed.

Lemma combat_step_untouched s b a :
  untouched (combat_step lookup s b a) = untouched b.
Proof.
  unfold combat_step.
  destruct (lookup _ _) as [[u|]|e]; [| |reflexivity].
  - destruct (py_max _ _) as [target|]; [|apply regular_combat_untouched].
    destruct (_ <=? _); [|apply regular_combat_untouched].
    destruct (Character.use_ultimate _ _ _) as [damage h] eqn:Hu.
    destruct (0 <? damage).
    + unfold untouched, _update_damage_stats. cbn. crush_step.
    + rewrite regular_combat_untouched. reflexivity.
  - apply regular_combat_untouched.
Qed.

Lemma combat_step_fields s b a :
  Player.field (player1 (combat_step lookup s b a)) = Player.field (player1 b)
  /\ Player.field (player2 (combat_step lookup s b a)) = Player.field (player2 b).
Proof.
  unfold combat_step.
  destruct (lookup _ _) as [[u|]|e]; [| |split; reflexivity].
  - destruct (py_max _ _) as [target|]; [|apply regular_combat_fields].
    destruct (_ <=? _); [|apply regular_combat_fields].
    destruct (Character.use_ultimate _ _ _) as [damage h] eqn:Hu.
    destruct (0 <? damage).
    + unfold _update_damage_stats. cbn. crush_step; auto.
    + destruct (regular_combat_fields s a (set_heap h b)) as [H1 H2].
      rewrite H1, H2. auto.
  - apply regular_combat_fields.
Qed.

Lemma regenerate_step_untouched b c : untouched (regenerate_step b c) = untouched b.
Proof. reflexivity. Qed.

Lemma play_step_fields s b c :
  exists l, Player.field (player s (play_step s b c)) = Player.field (player s b) ++ l
            /\ Player.field (player (other s) (play_step s b c))
               = Player.field (player (other s) b).
Proof.
  unfold play_step, Player.play_card.
  destruct (_ && _) eqn:Hguard; [|exists []; rewrite app_nil_r; auto].
  destruct (bool_decide _ && _ && _).
  - exists [c]. destruct s; cbn; crush_step; auto.
  - exists []. rewrite app_nil_r. destruct s; cbn; crush_step; auto.
Qed.

Lemma play_phase_fields s b :
  Player.field (player s b) `prefix_of` Player.field (player s (play_phase s b))
  /\ Player.field (player (other s) (play_phase s b))
     = Player.field (player (other s) b).
Proof.
  unfold play_phase. generalize (take 2 (playable_cards s b)) as l.
  intros l. revert b. induction l as [|c l IH]; intros b; cbn.
  - split; reflexivity.
  - destruct (IH (play_step s b c)) as [Hp Ho].
    destruct (play_step_fields s b c) as (k & Hk & Hko).
    split.
    + etransitivity; [|exact Hp]. rewrite Hk. apply prefix_app_r. reflexivity.
    + rewrite Ho. exact Hko.
Qed.

Lemma play_phase_untouched s b : untouched (play_phase s b) = untouched b.
Proof. unfold play_phase. apply foldl_frame. intros. apply play_step_untouched. Qed.

Lemma combat_phase_untouched s b :
  untouched (combat_phase lookup s b) = untouched b.
Proof. unfold combat_phase. apply foldl_frame. intros. apply combat_step_untouched. Qed.

Lemma combat_phase_fields s b :
  Player.field (player1 (combat_phase lookup s b)) = Player.field (player1 b)
  /\ Player.field (player2 (combat_phase lookup s b)) = Player.field (player2 b).
Proof.
  unfold combat_phase. split.
  - apply (foldl_frame _ (fun b => Player.field (player1 b))).
    intros. apply combat_step_fields.
  - apply (foldl_frame _ (fun b => Player.field (player2 b))).
    intros. apply combat_step_fields.
Qed.

Lemma draw_graveyard d n : Deck.graveyard (snd (Deck.draw d n)) = Deck.graveyard d.
Proof. unfold Deck.draw. destruct (Deck.cards d); reflexivity. Qed.

Lemma draw_cards_keeps p n :
  let p' := snd (Player.draw_cards p n) in
  Deck.graveyard (Player.deck p') = Deck.graveyard (Player.deck p)
  /\ Player.field p' = Player.field p
  /\ Player.name p' = Player.name p.
Proof.
  unfold Player.draw_cards. pose proof (draw_graveyard (Player.deck p) n) as Hg.
  destruct (Deck.draw _ _) as [drawn d]. destruct drawn; cbn in *; auto.
Qed.

Lemma draw_keeps s b :
  let b' := set_player s (snd (Player.draw_cards (player s b) 1)) b in
  untouched b' = untouched b
  /\ Player.field (player1 b') = Player.field (player1 b)
  /\ Player.field (player2 b') = Player.field (player2 b).
Proof.
  destruct (draw_cards_keeps (player s b) 1) as (Hg & Hf & Hn). cbn zeta in *.
  unfold untouched, graveyards.
  destruct s; cbn in *; rewrite ?Hg, ?Hf, ?Hn; auto.
Qed.

Lemma add_energy_keeps s b :
  let b' := set_player s (Player.add_energy (player s b) 1) b in
  untouched b' = untouched b
  /\ Player.field (player1 b') = Player.field (player1 b)
  /\ Player.field (player2 b') = Player.field (player2 b).
Proof. destruct s; cbn; auto. Qed.

Lemma regenerate_keeps l b :
  let b' := foldl regenerate_step b l in
  untouched b' = untouched b
  /\ Player.field (player1 b') = Player.field (player1 b)
  /\ Player.field (player2 b') = Player.field (player2 b).
Proof.
  cbn zeta. repeat split.
  - apply foldl_frame. reflexivity.
  - apply (foldl_frame _ (fun b => Player.field (player1 b))). reflexivity.
  - apply (foldl_frame _ (fun b => Player.field (player2 b))). reflexivity.
Qed.

(** No turn takes a character off a field or writes a graveyard. *)
Lemma process_turn_never_removes s b :
  let b' := snd (process_turn lookup s b) in
  Player.field (player s b) `prefix_of` Player.field (player s b')
  /\ Player.field (player (other s) b') = Player.field (player (other s) b)
  /\ untouched b' = untouched b.
Proof.
  unfold process_turn. cbn zeta.
  set (b1 := if 0 <? Deck.cards_remaining _ then _ else b).
  assert (H1 : untouched b1 = untouched b
               /\ Player.field (player1 b1) = Player.field (player1 b)
               /\ Player.field (player2 b1) = Player.field (player2 b)).
  { subst b1. destruct (0 <? _); [apply draw_keeps | auto]. }
  set (b2 := set_player s (Player.add_energy (player s b1) 1) b1).
  destruct (add_energy_keeps s b1) as (H2u & H2a & H2b). fold b2 in H2u, H2a, H2b.
  unfold _process_actions.
  set (b3 := play_phase s b2).
  destruct (play_phase_fields s b2) as [H3p H3o]. fold b3 in H3p, H3o.
  pose proof (play_phase_untouched s b2) as H3u. fold b3 in H3u.
  set (b4 := combat_phase lookup s b3).
  destruct (combat_phase_fields s b3) as [H4a H4b]. fold b4 in H4a, H4b.
  pose proof (combat_phase_untouched s b3) as H4u. fold b4 in H4u.
  destruct (regenerate_keeps (Player.field (player s b4)) b4) as (H5u & H5a & H5b).
  cbn [snd]. destruct H1 as (H1u & H1a & H1b).
  rewrite H5u, H4u, H3u, H2u, H1u.
  destruct s; cbn [player other] in *;
    rewrite ?H5a, ?H5b, ?H4a, ?H4b; rewrite ?H3o, ?H2a, ?H2b, ?H1a, ?H1b;
    repeat split; auto;
    (etransitivity; [|exact H3p]); rewrite ?H2a, ?H2b, ?H1a, ?H1b; reflexivity.
Qed.

(** The placement counters: only a play writes them, one at a time. *)
Lemma regular_combat_placements s a b :
  placements_this_turn (regular_combat s a b) = placements_this_turn b.
Proof.
  unfold regular_combat, _update_damage_stats, Character.take_damage.
  destruct s; cbn; crush_step.
Qed.

Lemma combat_step_placements s b a :
  placements_this_turn (combat_step lookup s b a) = placements_this_turn b.
Proof.
  unfold combat_step.
  destruct (lookup _ _) as [[u|]|e]; [| |reflexivity].
  - destruct (py_max _ _) as [target|]; [|apply regular_combat_placements].
    destruct (_ <=? _); [|apply regular_combat_placements].
    destruct (Character.use_ultimate _ _ _) as [damage h] eqn:Hu.
    destruct (0 <? damage).
    + unfold _update_damage_stats. cbn. crush_step.
    + rewrite regular_combat_placements. reflexivity.
  - apply regular_combat_placements.
Qed.

Lemma play_step_counter s b c k :
  placements_this_turn (play_step s b c) !! k = placements_this_turn b !! k
  \/ (k = Player.name (player s b)
      /\ exists n, placements_this_turn b !! k = Some n
                   /\ placements_this_turn (play_step s b c) !! k = Some (n + 1)).
Proof.
  unfold play_step. cbn zeta. destruct (_ && _); [|left; reflexivity].
  set (b1 := set_player s _ b).
  assert (Hsame : placements_this_turn b1 = placements_this_turn b)
    by (destruct s; reflexivity).
  rewrite Hsame.
  destruct (placements_this_turn b !! Player.name (player s b)) as [n|] eqn:Hn.
  - destruct (card_damage_tracker _ !! _);
      cbn [placements_this_turn log set_card_damage_tracker set_placements_this_turn];
      (destruct (decide (k = Player.name (player s b))) as [->|Hk];
       [ right; split; [reflexivity|]; exists n; rewrite lookup_insert_eq; auto
       | left; apply lookup_insert_ne; auto ]).
  - left. cbn. rewrite Hsame. reflexivity.
Qed.

Lemma play_phase_counter s b k :
  exists m, 0 <= m <= 2
            /\ placements_this_turn (play_phase s b) !! k
               = (fun n => n + m) <$> placements_this_turn b !! k
            /\ (k <> Player.name (player s b) -> m = 0).
Proof.
  assert (Hzero : forall o : option Z, o = (fun n => n + 0) <$> o).
  { intros [n|]; cbn; [f_equal; lia | reflexivity]. }
  assert (Hname : forall b0 c, Player.name (player s (play_step s b0 c))
                               = Player.name (player s b0)).
  { intros b0 c. pose proof (play_step_untouched s b0 c) as H.
    unfold untouched in H. destruct s; cbn; congruence. }
  assert (Hone : forall b0 c,
             exists m, 0 <= m <= 1
                       /\ placements_this_turn (play_step s b0 c) !! k
                          = (fun n => n + m) <$> placements_this_turn b0 !! k
                       /\ (k <> Player.name (player s b0) -> m = 0)).
  { intros b0 c. destruct (play_step_counter s b0 c k) as [H | (Hk & n & H0 & H1)].
    - exists 0. rewrite H. split; [lia|]. split; [apply Hzero | reflexivity].
    - exists 1. rewrite H0, H1. split; [lia|]. split; [reflexivity | congruence]. }
  unfold play_phase. destruct (take 2 (playable_cards s b)) as [|c1 [|c2 rest]] eqn:Hl.
  - exists 0. cbn. split; [lia|]. split; [apply Hzero | reflexivity].
  - destruct (Hone b c1) as (m & Hm & H & Hk). exists m. cbn. split; [lia|]. auto.
  - assert (rest = []) as ->.
    { assert (Hlen : (length (c1 :: c2 :: rest) <= 2)%nat)
        by (rewrite <- Hl, length_take; lia).
      destruct rest; [reflexivity | cbn in Hlen; lia]. }
    destruct (Hone b c1) as (m1 & Hm1 & H1 & Hk1).
    destruct (Hone (play_step s b c1) c2) as (m2 & Hm2 & H2 & Hk2).
    rewrite Hname in Hk2. exists (m1 + m2). cbn. split; [lia|]. split.
    + rewrite H2, H1. destruct (placements_this_turn b !! k); cbn; [f_equal; lia | reflexivity].
    + intros Hk. rewrite (Hk1 Hk), (Hk2 Hk). reflexivity.
Qed.

Lemma process_turn_counter s b k :
  exists m, 0 <= m <= 2
            /\ placements_this_turn (snd (process_turn lookup s b)) !! k
               = (fun n => n + m) <$> placements_this_turn b !! k
            /\ (k <> Player.name (player s b) -> m = 0).
Proof.
  unfold process_turn. cbn zeta.
  set (b1 := if 0 <? Deck.cards_remaining _ then _ else b).
  assert (H1 : placements_this_turn b1 = placements_this_turn b
               /\ Player.name (player s b1) = Player.name (player s b)).
  { subst b1. destruct (0 <? _); [|auto].
    destruct (draw_cards_keeps (player s b) 1) as (_ & _ & Hn). cbn zeta in Hn.
    destruct s; cbn; auto. }
  destruct H1 as [H1p H1n].
  set (b2 := set_player s (Player.add_energy (player s b1) 1) b1).
  assert (H2 : placements_this_turn b2 = placements_this_turn b
               /\ Player.name (player s b2) = Player.name (player s b)).
  { subst b2. rewrite <- H1p, <- H1n. destruct s; cbn; auto. }
  destruct H2 as [H2p H2n].
  unfold _process_actions. cbn [snd].
  destruct (play_phase_counter s b2 k) as (m & Hm & H & Hk).
  exists m. split; [exact Hm|]. split; [|rewrite <- H2n; exact Hk].
  rewrite <- H2p, <- H.
  rewrite (foldl_frame regenerate_step placements_this_turn) by reflexivity.
  unfold combat_phase.
  rewrite (foldl_frame (combat_step lookup s) placements_this_turn)
    by (intros; apply combat_step_placements).
  reflexivity.
Qed.

End Frames.

(** *** The end of a battle *)

Section HardCap.

Import Battle.

Variable lookup : ultimate_abilities.lookup_fn.

Lemma turn_pair_counts b b' :
  turn_pair lookup b = (None, b') -> current_turn b' = current_turn b + 1.
Proof.
  unfold turn_pair.
  set (b0 := set_placements_this_turn fresh_placements b).
  pose proof (process_turn_never_removes lookup P1 b0) as (_ & _ & H1).
  destruct (process_turn lookup P1 b0) as [won1 b1]. cbn [snd] in H1.
  destruct won1; [discriminate|].
  pose proof (process_turn_never_removes lookup P2 b1) as (_ & _ & H2).
  destruct (process_turn lookup P2 b1) as [won2 b2]. cbn [snd] in H2.
  destruct won2; [discriminate|].
  intros [= <-]. unfold untouched in *. cbn in *. congruence.
Qed.

Lemma simulate_battle_rounds (n : nat) :
  forall (b : t) (fuel : nat),
    current_turn b + Z.of_nat n = max_turns + 1 ->
    no_winner_within lookup n b = true ->
    (n < fuel)%nat ->
    simulate_battle lookup fuel b
    = Some (winner_at_cap (after_rounds lookup n b), after_rounds lookup n b).
Proof.
  unfold max_turns. induction n as [|n IH]; intros b fuel Hturn Hno Hfuel.
  - destruct fuel as [|fuel]; [lia|]. cbn.
    replace (current_turn b <=? max_turns) with false by (unfold max_turns; lia).
    reflexivity.
  - destruct fuel as [|fuel]; [lia|]. cbn [simulate_battle].
    replace (current_turn b <=? max_turns) with true by (unfold max_turns; lia).
    cbn [no_winner_within after_rounds] in *.
    destruct (turn_pair lookup b) as [[w|] b'] eqn:Hpair; [discriminate|].
    cbn [snd]. apply IH; [|exact Hno|lia].
    rewrite (turn_pair_counts _ _ Hpair). lia.
Qed.

(** In a round no placement counter goes above 2, the two players having
    their own names. *)
Lemma turn_pair_counters_capped b k n :
  Player.name (player1 b) <> Player.name (player2 b) ->
  placements_this_turn (snd (turn_pair lookup b)) !! k = Some n ->
  0 <= n <= 2.
Proof.
  intros Hnames. unfold turn_pair.
  set (b0 := set_placements_this_turn fresh_placements b).
  assert (H0 : forall n0, placements_this_turn b0 !! k = Some n0 -> n0 = 0).
  { intros n0. cbn. unfold fresh_placements. intros H.
    apply lookup_insert_Some in H as [[_ <-]|[_ H]]; [reflexivity|].
    apply lookup_insert_Some in H as [[_ <-]|[_ H]]; [reflexivity|].
    rewrite lookup_empty in H. discriminate. }
  destruct (process_turn_counter lookup P1 b0 k) as (m1 & Hm1 & H1 & Hk1).
  pose proof (process_turn_never_removes lookup P1 b0) as (_ & _ & Hu1).
  destruct (process_turn lookup P1 b0) as [won1 b1]. cbn [snd] in *.
  assert (Hn1 : Player.name (player1 b1) = Player.name (player1 b)
                /\ Player.name (player2 b1) = Player.name (player2 b)).
  { unfold untouched in Hu1. cbn in Hu1. split; congruence. }
  assert (Hcap1 : forall n1, placements_this_turn b1 !! k = Some n1 ->
                             n1 = m1 /\ placements_this_turn b0 !! k = Some 0).
  { intros n1. rewrite H1. destruct (placements_this_turn b0 !! k) as [n0|] eqn:E;
      [|discriminate].
    rewrite (H0 n0 eq_refl). cbn. intros [= <-]. auto. }
  destruct won1.
  { cbn. intros H. apply Hcap1 in H as [-> _]. lia. }
  destruct (process_turn_counter lookup P2 b1 k) as (m2 & Hm2 & H2 & Hk2).
  destruct (process_turn lookup P2 b1) as [won2 b2]. cbn [snd] in *.
  assert (Hcap2 : placements_this_turn b2 !! k = Some n -> 0 <= n <= 2).
  { rewrite H2. destruct (placements_this_turn b1 !! k) as [n1|] eqn:E; [|discriminate].
    destruct (Hcap1 n1 eq_refl) as [-> _]. cbn. intros [= <-].
    destruct (decide (k = Player.name (player1 b))) as [->|Hk].
    - rewrite Hk2; [lia|]. cbn. destruct Hn1 as [_ ->]. exact Hnames.
    - rewrite Hk1; [lia|]. exact Hk. }
  destruct won2; cbn; exact Hcap2.
Qed.

(** The loop of [simulate_battle] ends: from turn [t] it needs at most
    [51 - t] rounds and one more test. *)
Lemma simulate_battle_terminates (n : nat) :
  forall (b : t) (fuel : nat),
    max_turns + 1 <= current_turn b + Z.of_nat n ->
    (n < fuel)%nat ->
    exists r, simulate_battle lookup fuel b = Some r.
Proof.
  induction n as [|n IH]; intros b fuel Hturn Hfuel.
  - destruct fuel as [|fuel]; [lia|]. cbn.
    replace (current_turn b <=? max_turns) with false by lia. eauto.
  - destruct fuel as [|fuel]; [lia|]. cbn [simulate_battle].
    destruct (current_turn b <=? max_turns); [|eauto].
    destruct (turn_pair lookup b) as [[w|] b'] eqn:Hpair; [eauto|].
    apply IH; [|lia]. rewrite (turn_pair_counts _ _ Hpair). lia.
Qed.

(** C7. A battle that starts at turn 1 and sees no winner in 50 rounds
    ends there; the winner is the player with strictly more life
    points, and player 2 when the life points are equal: a function of
    the final state. *)
Theorem simulate_battle_hard_cap (b : t) (fuel : nat) :
  current_turn b = 1 ->
  no_winner_within lookup 50 b = true ->
  (51 <= fuel)%nat ->
  let final := after_rounds lookup 50 b in
  let lp1 := Player.life_points (player1 final) in
  let lp2 := Player.life_points (player2 final) in
  exists winner,
    simulate_battle lookup fuel b = Some (winner, final)
    /\ winner = winner_at_cap final
    /\ (lp2 < lp1 -> winner = P1)
    /\ (lp1 < lp2 -> winner = P2)
    /\ (lp1 = lp2 -> winner = P2).
Proof.
  intros Hturn Hno Hfuel final lp1 lp2.
  exists (winner_at_cap final). split; [|split; [reflexivity|]].
  - apply simulate_battle_rounds; [unfold max_turns; lia | exact Hno | lia].
  - subst lp1 lp2. unfold winner_at_cap.
    destruct (_ <? _) eqn:E; repeat split; intros; try reflexivity; lia.
Qed.

End HardCap.

(** *** The battles of the samples *)

(** With 3 energy and a hand that starts with two cards of cost 2, the
    candidates are these two; the first is played and the second, which
    the energy left no longer pays, is skipped.  The card of cost 1
    behind them is no candidate. *)
Example play_battle_plays_one :
  let b := play_battle in
  let p := Battle.player1 b in
  let b' := Battle.play_phase Battle.P1 b in
  Player.hand p = [0; 1; 2; 4; 5]%nat
  /\ candidates (Battle.heap b) (Player.energy p) (Player.hand p) = [0; 1]%nat
  /\ played_cards (Battle.heap b) (Player.energy p) (length (Player.field p))
       [0; 1]%nat = [0%nat]
  /\ Player.field (Battle.player1 b') = [0%nat]
  /\ Player.hand (Battle.player1 b') = [1; 2; 4; 5]%nat
  /\ Player.energy (Battle.player1 b') = 1
  /\ Battle.placements_this_turn b' !! "Player 1"%string = Some 1
  /\ Battle.battle_log b' = [Battle.LogPlays "Player 1" "Gojo Satoru"].
Proof. vm_compute. auto 10. Qed.



Example opening_battle_ends_in_a_tie :
  let final := after_rounds ultimate_abilities.get_ultimate_ability 50 opening_battle in
  Player.life_points (Battle.player1 final) = 2000
  /\ Player.life_points (Battle.player2 final) = 2000
  /\ Battle.winner_at_cap final = Battle.P2.
Proof. vm_compute. auto. Qed.

Lemma simulate_battle_hard_cap_witness :
  let lookup := ultimate_abilities.get_ultimate_ability in
  let final := after_rounds lookup 50 opening_battle in
  let lp1 := Player.life_points (Battle.player1 final) in
  let lp2 := Player.life_points (Battle.player2 final) in
  exists winner,
    Battle.simulate_battle lookup 51 opening_battle = Some (winner, final)
    /\ winner = Battle.winner_at_cap final
    /\ (lp2 < lp1 -> winner = Battle.P1)
    /\ (lp1 < lp2 -> winner = Battle.P2)
    /\ (lp1 = lp2 -> winner = Battle.P2).
Proof.
  apply (simulate_battle_hard_cap ultimate_abilities.get_ultimate_ability
           opening_battle 51).
  - reflexivity.
  - vm_compute. reflexivity.
  - lia.
Defined.

(** *** The ultimate in the combat phase *)

(** Every call of the lookup raises: the first entry of its table is built
    with a keyword [cooldown], which [UltimateAbility.__init__] does not
    take. *)
Lemma get_ultimate_ability_raises (character_name variant : string) :
  ultimate_abilities.get_ultimate_ability character_name variant = Raised TypeError.
Proof. reflexivity. Qed.

(** So the [except] clause of the combat loop is all that runs. *)
Lemma combat_step_of_the_source (s : Battle.side) (b : Battle.t) (attacker : Character.ref) :
  Battle.combat_step ultimate_abilities.get_ultimate_ability s b attacker
  = Battle.log (Battle.LogCombatFailed (Character.name (Battle.heap b attacker))) b.
Proof. reflexivity. Qed.

(** C2, at a character that is eligible: Gojo Satoru (Standard) has an
    entry in the table, energy 3 for a cost of 1, and faces a living
    character.  The combat phase leaves its energy, the health of the
    target and the statistics as they were and logs a failure. *)
Theorem eligible_ultimate_does_not_fire :
  let b := ultimate_battle in
  let b' := Battle.combat_phase ultimate_abilities.get_ultimate_ability Battle.P1 b in
  (Player.field (Battle.player1 b) = [0%nat]
   /\ Character.name (Battle.heap b 0%nat) = "Gojo Satoru"%string
   /\ Character.variant (Battle.heap b 0%nat) = "Standard"%string
   /\ Character.energy (Battle.heap b 0%nat) = 3
   /\ Character.ultimate_energy_cost (Battle.heap b 0%nat) = 1
   /\ Character.ultimate_damage (Battle.heap b 0%nat) = 250
   /\ Player.field (Battle.player2 b) = [8%nat]
   /\ Character.current_health (Battle.heap b 8%nat) = 150)
  /\ b' = Battle.log (Battle.LogCombatFailed "Gojo Satoru") b
  /\ Character.energy (Battle.heap b' 0%nat) = 3
  /\ Character.current_health (Battle.heap b' 8%nat) = 150
  /\ Battle.damage_stats b' = Battle.damage_stats b
  /\ Battle.ability_usage_tracker b' = Battle.ability_usage_tracker b.
Proof.
  cbn zeta. split; [vm_compute; auto 10|].
  assert (H : Battle.combat_phase ultimate_abilities.get_ultimate_ability
                Battle.P1 ultimate_battle
              = Battle.log (Battle.LogCombatFailed "Gojo Satoru") ultimate_battle)
    by reflexivity.
  rewrite H. repeat split; reflexivity.
Qed.

Lemma store_lookup_insert (h : Character.store) (r : Character.ref) (c : Character.t) :
  (<[r := c]> h) r = c.
Proof. apply fn_lookup_insert. Qed.

Lemma store_lookup_insert_ne (h : Character.store) (r r' : Character.ref)
      (c : Character.t) :
  r <> r' -> (<[r := c]> h) r' = h r'.
Proof. apply fn_lookup_insert_ne. Qed.

(** What the loop does once the lookup returns an ultimate: the target is
    the first character of the other field with the most health, the
    energy is paid, and an ultimate that deals damage is recorded in its
    bucket and counted, with no basic attack and no energy gained. *)
Lemma combat_step_ultimate_fires
    (lookup : ultimate_abilities.lookup_fn)
    (s : Battle.side) (b : Battle.t) (attacker target : Character.ref)
    (u : ultimate_abilities.UltimateAbility) :
  let a := Battle.heap b attacker in
  let victim := Battle.heap b target in
  lookup (Character.name a) (Character.variant a) = Returned (Some u) ->
  py_max (fun x => Character.current_health (Battle.heap b x))
         (Player.field (Battle.player (Battle.other s) b)) = Some target ->
  Character.ultimate_energy_cost a <= Character.energy a ->
  attacker <> target ->
  0 < Character.ultimate_damage a ->
  0 < Character.current_health victim ->
  let b' := Battle.combat_step lookup s b attacker in
  let damage := Z.min (Character.ultimate_damage a) (Character.current_health victim) in
  Character.energy (Battle.heap b' attacker)
  = Character.energy a - Character.ultimate_energy_cost a
  /\ Character.current_health (Battle.heap b' target)
     = Character.current_health victim - damage
  /\ Battle.ultimate (Battle.damage_stats b') !! Character.name a
     = Some (default 0 (Battle.ultimate (Battle.damage_stats b) !! Character.name a) + damage)
  /\ Battle.times_used <$> (Battle.ability_usage_tracker b' !! Character.name a)
     = Some (default 0 (Battle.times_used <$>
                          (Battle.ability_usage_tracker b !! Character.name a)) + 1)
  /\ Battle.direct (Battle.damage_stats b') = Battle.direct (Battle.damage_stats b)
  /\ Battle.battle_log b'
     = Battle.battle_log b
       ++ [Battle.LogUltimate (Character.name a) (Character.name victim) damage].
Proof.
  intros a victim Hlookup Htarget Hcost Hne Hud Hhealth. cbn zeta.
  unfold Battle.combat_step. fold a. rewrite Hlookup, Htarget.
  replace (Character.ultimate_energy_cost a <=? Character.energy a) with true by lia.
  unfold Character.use_ultimate. fold a.
  replace (Character.ultimate_energy_cost a <=? Character.energy a) with true by lia.
  rewrite store_lookup_insert, store_lookup_insert_ne by exact Hne. fold victim.
  unfold Character.take_damage. cbn [Character.ultimate_damage Character.set_energy
    Character.current_health].
  replace (0 <? Z.min (Character.ultimate_damage a) (Character.current_health victim))
    with true by lia.
  unfold Battle._update_damage_stats.
  replace (Z.min (Character.ultimate_damage a) (Character.current_health victim) <=? 0)
    with false by lia.
  cbn. rewrite !store_lookup_insert.
  rewrite store_lookup_insert_ne, store_lookup_insert
    by (intros E; apply Hne; symmetry; exact E).
  rewrite !lookup_insert_eq. cbn.
  destruct (Battle.ability_usage_tracker b !! Character.name a); cbn; auto 10.
Qed.

(** *** Characters without health *)



(** With a lookup that finds no ultimate the basic attack goes through:
    the Cursed Spirit loses its 150 health to an attack of 200, stays on
    the field of player 2, and attacks from there in the next combat
    phase of its owner. *)
Example killed_character_keeps_fighting :
  let b1 := Battle.combat_phase no_ultimate Battle.P1 duel_battle in
  let b2 := Battle.combat_phase no_ultimate Battle.P2 b1 in
  Character.current_health (Battle.heap b1 8%nat) = 0
  /\ Player.field (Battle.player2 b1) = [8%nat]
  /\ Battle.battle_log b1 = [Battle.LogAttacks "Yuji Itadori" "Cursed Spirit" 150]
  /\ Battle.battle_log b2
     = [Battle.LogAttacks "Yuji Itadori" "Cursed Spirit" 150;
        Battle.LogAttacks "Cursed Spirit" "Yuji Itadori" 100]
  /\ Character.current_health (Battle.heap b2 1%nat) = 100
  /\ graveyards b2 = ([], []).
Proof. vm_compute. auto 10. Qed.

(** C6, at a card that has no health: the Cursed Doll (DEF 0) is played
    in the first turn and is on the field of player 1, without health,
    when the battle ends at the cap; the combat loop went through it, and
    both graveyards are empty. *)
Theorem dead_character_stays_on_the_field :
  let lookup := ultimate_abilities.get_ultimate_ability in
  let final := after_rounds lookup 50 doll_battle in
  Battle.simulate_battle lookup 51 doll_battle = Some (Battle.P2, final)
  /\ Player.field (Battle.player1 final) = [3; 4; 5; 6; 7]%nat
  /\ Character.current_health (Battle.heap final 3%nat) = 0
  /\ Character.is_alive (Battle.heap final 3%nat) = false
  /\ Battle.LogCombatFailed "Cursed Doll" ∈ Battle.battle_log final
  /\ graveyards final = ([], []).
Proof.
  cbn zeta. split.
  - rewrite (simulate_battle_rounds ultimate_abilities.get_ultimate_ability 50
               doll_battle 51); [|reflexivity|vm_compute; reflexivity|lia].
    replace (Battle.winner_at_cap
               (after_rounds ultimate_abilities.get_ultimate_ability 50 doll_battle))
      with Battle.P2 by (vm_compute; reflexivity).
    reflexivity.
  - repeat split; try (vm_compute; reflexivity).
    apply (bool_decide_unpack _). vm_compute. exact I.
Qed.

(** *** Building a deck from a single card *)

Section SingleCardPool.

Variable table : ultimate_abilities.methods.
Variable rng : nat -> nat.
Variable card : CardRow.

Lemma choice_single {A} (k : nat) (x : A) : Deck.choice rng k [x] = Some x.
Proof. unfold Deck.choice. cbn. reflexivity. Qed.

Lemma copies_only_drawn n st : copies_only card st -> copies_only card (Deck.drawn n st).
Proof. exact id. Qed.

Lemma copies_only_add st :
  copies_only card st -> Deck.count_of card st < 3 ->
  copies_only card (Deck.add_card table card st).
Proof.
  unfold copies_only, Deck.add_card, Deck.count_of. cbn. intros [Hlen Hle] Hlt.
  rewrite lookup_insert_eq, length_app. cbn. lia.
Qed.

Lemma cost_loop_copies_only attempts_left :
  forall target_count cards_added st,
    copies_only card st ->
    exists st', Deck.cost_loop table rng attempts_left target_count cards_added
                  [card] st = Returned st'
                /\ copies_only card st'.
Proof.
  induction attempts_left as [|n IH]; intros target_count cards_added st Hst;
    cbn [Deck.cost_loop].
  - eauto.
  - destruct (cards_added <? target_count)%nat; [|eauto].
    rewrite choice_single.
    destruct (Deck.count_of card (Deck.drawn 1 st) <? 3) eqn:Hlt.
    + apply IH. apply copies_only_add; [exact Hst|]. lia.
    + apply IH. exact Hst.
Qed.

Lemma group_single : Deck.group_by_cost [card] = [(clamped_cost card, [card])].
Proof. reflexivity. Qed.

Lemma group_get_single cost :
  Deck.group_get cost [(clamped_cost card, [card])] = [card]
  \/ Deck.group_get cost [(clamped_cost card, [card])] = [].
Proof. unfold Deck.group_get. cbn. destruct (clamped_cost card =? cost); cbn; auto. Qed.

Lemma fill_by_cost_copies_only dist :
  forall st,
    copies_only card st ->
    exists st', Deck.fill_by_cost table rng dist [(clamped_cost card, [card])] st
                = Returned st'
                /\ copies_only card st'.
Proof.
  induction dist as [|[cost target_count] dist IH]; intros st Hst;
    cbn [Deck.fill_by_cost].
  - eauto.
  - destruct (group_get_single cost) as [-> | ->]; [|auto].
    destruct (cost_loop_copies_only (target_count * 3) target_count 0 st Hst)
      as (st1 & -> & Hst1).
    cbn [mbind exc_bind]. auto.
Qed.

(** Once the card has its three copies the second loop goes round
    without adding anything, whatever is drawn. *)
Lemma fill_loop_never_ends fuel (size : nat) :
  (3 < size)%nat ->
  forall st,
    copies_only card st ->
    Deck.fill_loop table rng fuel size [(clamped_cost card, [card])] st = None.
Proof.
  intros Hsize. induction fuel as [|fuel IH]; intros st [Hlen Hle]; [reflexivity|].
  cbn [Deck.fill_loop].
  replace (length (Deck.selected_cards st) <? size)%nat with true
    by (symmetry; apply Nat.ltb_lt; lia).
  change (merge_sort Z.le (fst <$> [(clamped_cost card, [card])])) with [clamped_cost card].
  cbv beta iota. rewrite choice_single.
  replace (Deck.group_get (clamped_cost card) [(clamped_cost card, [card])]) with [card]
    by (unfold Deck.group_get; cbn; rewrite Z.eqb_refl; reflexivity).
  rewrite choice_single.
  destruct (Deck.count_of card (Deck.drawn 2 st) <? 3) eqn:Hlt.
  - apply IH. apply copies_only_add; [split; assumption|]. lia.
  - apply IH. split; assumption.
Qed.

(** A pool of one card never yields a deck of more than three cards:
    the construction does not return. *)
Lemma single_card_pool_never_builds (fuel size : nat) :
  (3 < size)%nat ->
  Deck.build_initial_deck table rng fuel size [card] = None.
Proof.
  intros Hsize. unfold Deck.build_initial_deck. rewrite group_single.
  destruct (fill_by_cost_copies_only Deck.COST_DISTRIBUTION (Deck.mkBuildState [] ∅ 0))
    as (st & -> & Hst).
  { unfold copies_only, Deck.count_of. cbn [Deck.card_counts Deck.selected_cards].
    rewrite lookup_empty. cbn. lia. }
  rewrite (fill_loop_never_ends fuel size Hsize st Hst). reflexivity.
Qed.

End SingleCardPool.

(** A pool of fourteen cards does yield a deck of 40 when the draws go
    round the pool. *)
Example fourteen_cards_build_a_deck :
  exists deck,
    Deck.build_initial_deck sample_table (fun k => k / 2)%nat 100 40 fourteen_cards
    = Some (Returned deck)
    /\ length deck = 40%nat.
Proof. eexists. split; [vm_compute; reflexivity | reflexivity]. Qed.

(** C5, at the pool of the scenario: with one card of cost 1, ATK 100 and
    DEF 100 and the deck size 40, [build_initial_deck] does not return,
    whatever the random draws and however long it runs. *)
Theorem lone_card_deck_is_never_built
    (table : ultimate_abilities.methods) (rng : nat -> nat) (fuel : nat) :
  Deck.build_initial_deck table rng fuel 40 [lone_card] = None.
Proof. apply single_card_pool_never_builds. lia. Qed.

(** *** The best configuration of a run *)

Section BestBalance.

Import BalanceSimulator.

Variable table : ultimate_abilities.methods.
Variable _run_single_iteration : nat -> Table -> Stats.
Variable _generate_final_analysis : t -> exc unit.

(** No score is greater than the initial best score. *)
Lemma score_gt_infinity (x : Q) : score_gt x Infinity = false.
Proof. reflexivity. Qed.

Lemma adjust_card_stats_keeps_best self stats self' :
  adjust_card_stats table self stats = Returned self' ->
  best_balance self' = best_balance self
  /\ best_balance_score self' = best_balance_score self
  /\ original_cards self' = original_cards self.
Proof.
  unfold adjust_card_stats.
  destruct (normalize (cards_df self)) as [[df adjustments]|]; [|discriminate].
  cbn [mbind exc_bind]. destruct (tune_cards _ _ _) as [tuned|]; [|discriminate].
  cbn [mbind exc_bind]. destruct (normalize _) as [[df' ?]|]; [|discriminate].
  cbn [mbind exc_bind]. intros [= <-]. auto.
Qed.

Lemma iteration_step_keeps_infinity iteration self self' :
  best_balance_score self = Infinity ->
  best_balance self = None ->
  iteration_step table _run_single_iteration iteration self = Returned self' ->
  best_balance_score self' = Infinity /\ best_balance self' = None.
Proof.
  intros Hscore Hbest. unfold iteration_step.
  destruct (calculate_balance_score _ _) as [balance_score|]; [|discriminate].
  cbn [mbind exc_bind]. rewrite Hscore, score_gt_infinity.
  intros Hadj. apply adjust_card_stats_keeps_best in Hadj as (-> & -> & _). auto.
Qed.

Lemma iterations_keep_infinity todo :
  forall done self self',
    best_balance_score self = Infinity ->
    best_balance self = None ->
    iterations table _run_single_iteration done todo self = Returned self' ->
    best_balance_score self' = Infinity /\ best_balance self' = None.
Proof.
  induction todo as [|todo IH]; intros done self self' Hscore Hbest; cbn [iterations].
  - intros [= <-]. auto.
  - destruct (iteration_step _ _ _ _) as [self1|] eqn:Hstep; [|discriminate].
    cbn [mbind exc_bind].
    destruct (iteration_step_keeps_infinity _ _ _ Hscore Hbest Hstep) as [H1 H2].
    apply IH; assumption.
Qed.

(** The best score starts at infinity and no balance score is greater:
    no table is ever kept as the best one and the function returns
    [None], whatever the battles give. *)
Lemma run_balance_iterations_returns_nothing
    (initial_cards : Table) (target_win_rate win_rate_tolerance : Q)
    (working_file : option Table) (num_iterations : nat) :
  run_balance_iterations table _run_single_iteration _generate_final_analysis
    (init initial_cards target_win_rate win_rate_tolerance working_file)
    num_iterations
  = None.
Proof.
  unfold run_balance_iterations.
  destruct (iterations _ _ _ _ _) as [self|] eqn:Hrun; [|reflexivity].
  apply iterations_keep_infinity in Hrun as [_ Hbest]; [|reflexivity|reflexivity].
  destruct (_generate_final_analysis self); [exact Hbest | reflexivity].
Qed.

End BestBalance.

(** C1, at a run of one iteration over fourteen cards: the balance score
    of the iteration is 28, the only one and so the best of the run, and
    yet the run returns [None] instead of the table. *)
Theorem best_table_is_not_returned
    (table : ultimate_abilities.methods)
    (_generate_final_analysis : BalanceSimulator.t -> exc unit) :
  let self := fresh_simulator fourteen_cards in
  (exists balance_score,
      BalanceSimulator.calculate_balance_score self weak_stats = Returned balance_score
      /\ (balance_score == 28)%Q
      /\ BalanceSimulator.score_gt balance_score
           (BalanceSimulator.best_balance_score self) = false)
  /\ BalanceSimulator.run_balance_iterations table (fun _ _ => weak_stats)
       _generate_final_analysis self 1 = None.
Proof.
  cbn zeta. split.
  - eexists. split; [vm_compute; reflexivity|]. split; reflexivity.
  - apply run_balance_iterations_returns_nothing.
Qed.

(** *** Normalization *)

Section Normalization.

Import BalanceSimulator.

(** A card within its cap is left as it is. *)
Lemma normalize_row_within_cap idx row :
  within_cap row -> normalize_row idx row = Returned (row, []).
Proof.
  unfold within_cap, normalize_row. intros H.
  replace (_ <? _) with false by lia. reflexivity.
Qed.

Lemma normalize_from_within_caps df :
  forall idx, Forall within_cap df -> normalize_from idx df = Returned (df, []).
Proof.
  induction df as [|row df IH]; intros idx Hall; [reflexivity|].
  apply Forall_cons in Hall as [Hrow Hall]. cbn [normalize_from].
  rewrite normalize_row_within_cap by exact Hrow. cbn [mbind exc_bind].
  rewrite IH by exact Hall. reflexivity.
Qed.

(** A second pass changes nothing when the first one brought every card
    within its cap. *)
Lemma normalize_twice_within_caps df df' adjustments :
  normalize df = Returned (df', adjustments) ->
  Forall within_cap df' ->
  normalize df' = Returned (df', []).
Proof. intros _. apply normalize_from_within_caps. Qed.

(** C3, at a card of cost 1 with ATK 300 and DEF 50: the first pass
    gives 150 and 100, which is still above the cap of 200, and the
    second pass gives 100 and 100. *)
Theorem normalization_is_not_idempotent :
  let once := [mkCardRow "Panda" "Standard" 1 150 100 "" 1] in
  let twice := [mkCardRow "Panda" "Standard" 1 100 100 "" 1] in
  normalize [heavy_card] = Returned (once, [mkAdjustment 0 0 (-150) 50 (ScaledDown 200)])
  /\ normalize once = Returned (twice, [mkAdjustment 0 0 (-50) 0 (ScaledDown 200)])
  /\ once <> twice
  /\ ~ Forall within_cap once.
Proof.
  cbn zeta. repeat split; try (vm_compute; reflexivity).
  - discriminate.
  - intros H. apply Forall_cons in H as [H _]. unfold within_cap in H.
    cbn in H. unfold get_max_total_stats in H. lia.
Qed.

End Normalization.

(** *** The cost distribution *)

Section CostDistribution.

Import BalanceSimulator.

Variable table : ultimate_abilities.methods.

(** A change of cost is recorded for a card only when the working
    table with that one card moved passes the test. *)
Lemma tune_card_cost_adjust self card_id card_stats adjustments adj :
  tune_card table self card_id card_stats = Returned adjustments ->
  adj ∈ adjustments ->
  cost_adjust adj <> 0 ->
  exists row,
    cards_df self !! card_idx adj = Some row
    /\ (cost_adjust adj = 1 \/ cost_adjust adj = -1)
    /\ cost_change_allowed self (Cost row) (Cost row + cost_adjust adj) = Returned true.
Proof.
  unfold tune_card.
  destruct (skipped _ _); [intros [= <-] Hin; inversion Hin|].
  destruct (find_card _ _ _) as [[idx row]|] eqn:Hfind;
    [|intros [= <-] Hin; inversion Hin].
  apply list_find_Some in Hfind as (Hrow & _ & _).
  destruct (Qlt_bool _ _); [|intros [= <-] Hin; inversion Hin].
  destruct (Qlt_bool 0 _).
  - destruct (Cost row <? 6); [|intros [= <-] Hin; inversion Hin].
    destruct (cost_change_allowed self (Cost row) (Cost row + 1)) as [allowed|] eqn:Hallowed;
      [|discriminate].
    cbn [mbind exc_bind]. destruct allowed; cbn [andb].
    + destruct (Qlt_bool _ _).
      * intros [= <-] Hin Hne. apply list_elem_of_singleton in Hin as ->. cbn in *.
        exists row. auto.
      * destruct (calculate_safe_stat_adjustment _ _ _) as [[new_atk new_def]|];
          [|discriminate].
        cbn [mbind exc_bind]. destruct (_ || _); intros [= <-] Hin Hne.
        -- apply list_elem_of_singleton in Hin as ->. cbn in Hne. congruence.
        -- inversion Hin.
    + destruct (calculate_safe_stat_adjustment _ _ _) as [[new_atk new_def]|];
        [|discriminate].
      cbn [mbind exc_bind]. destruct (_ || _); intros [= <-] Hin Hne.
      * apply list_elem_of_singleton in Hin as ->. cbn in Hne. congruence.
      * inversion Hin.
  - destruct (1 <? Cost row); [|intros [= <-] Hin; inversion Hin].
    destruct (cost_change_allowed self (Cost row) (Cost row - 1)) as [allowed|] eqn:Hallowed;
      [|discriminate].
    cbn [mbind exc_bind]. destruct allowed; cbn [andb].
    + destruct (Qlt_bool _ _).
      * intros [= <-] Hin Hne. apply list_elem_of_singleton in Hin as ->. cbn in *.
        exists row. auto.
      * destruct (calculate_safe_stat_adjustment _ _ _) as [[new_atk new_def]|];
          [|discriminate].
        cbn [mbind exc_bind]. destruct (_ || _); intros [= <-] Hin Hne.
        -- apply list_elem_of_singleton in Hin as ->. cbn in Hne. congruence.
        -- inversion Hin.
    + destruct (calculate_safe_stat_adjustment _ _ _) as [[new_atk new_def]|];
        [|discriminate].
      cbn [mbind exc_bind]. destruct (_ || _); intros [= <-] Hin Hne.
      * apply list_elem_of_singleton in Hin as ->. cbn in Hne. congruence.
      * inversion Hin.
Qed.

(** C4, at fourteen cards of cost 2 of which two never win: each of
    the two passes the test on its own, both are moved to cost 1, and
    the share of cost 2 ends at 6/7 against 1 in the original table, the
    share of cost 1 at 1/7 against 0: more than the tolerance of 0.1. *)
Theorem cost_distribution_drifts :
  let self := fresh_simulator fourteen_cards in
  exists self' original adjusted,
    adjust_card_stats table self weak_stats = Returned self'
    /\ cost_change_allowed self 2 1 = Returned true
    /\ current_adjustments self'
       = [mkAdjustment 0 (-1) 0 0 LowDamage; mkAdjustment 1 (-1) 0 0 LowDamage]
    /\ Cost <$> cards_df self' = [1; 1; 2; 2; 2; 2; 2; 2; 2; 2; 2; 2; 2; 2]
    /\ get_cost_distribution (original_cards self') = Returned original
    /\ get_cost_distribution (cards_df self') = Returned adjusted
    /\ (dist_get original 2 == 1)%Q /\ (dist_get adjusted 2 == 6 # 7)%Q
    /\ (dist_get original 1 == 0)%Q /\ (dist_get adjusted 1 == 1 # 7)%Q
    /\ Qle_bool (Qabs (dist_get adjusted 2 - dist_get original 2))
                COST_DISTRIBUTION_TOLERANCE = false
    /\ Qle_bool (Qabs (dist_get adjusted 1 - dist_get original 1))
                COST_DISTRIBUTION_TOLERANCE = false.
Proof.
  cbn zeta. eexists. eexists. eexists.
  split; [vm_compute; reflexivity|].
  split; [vm_compute; reflexivity|].
  split; [vm_compute; reflexivity|].
  split; [vm_compute; reflexivity|].
  split; [vm_compute; reflexivity|].
  split; [vm_compute; reflexivity|].
  repeat split; vm_compute; try reflexivity; discriminate.
Qed.

End CostDistribution.

(** ** Further properties of the cards and the players *)

Section Cards.

Import Character.

(** X1. Energy comes one point at a time and stops at 10: after [n]
    calls of [add_energy] a character that had at most 10 has
    [min(energy + n, 10)], and nothing else about it has changed. *)
Theorem add_energy_saturates (c : t) (n : nat) :
  energy c <= 10 ->
  let c' := Nat.iter n add_energy c in
  energy c' = Z.min (energy c + Z.of_nat n) 10
  /\ current_health c' = current_health c
  /\ static c' = static c.
Proof.
  intros Hc. induction n as [|n IH].
  - cbn. repeat split. lia.
  - cbn zeta in *. rewrite Nat.iter_succ. destruct IH as (He & Hh & Hs).
    unfold add_energy at 1. cbn. rewrite He, Hh. repeat split; [lia|exact Hs].
Qed.

(** X2. No method brings a character back: once its health is 0 or
    less, damage (of a non-negative amount), regeneration, healing and
    energy leave it without health. *)
Theorem dead_character_is_not_revived (c : t) (amount : Z) :
  is_alive c = false ->
  0 <= amount ->
  is_alive (snd (take_damage c amount)) = false
  /\ regenerate_health c = c
  /\ is_alive (heal c amount) = false
  /\ is_alive (add_energy c) = false.
Proof.
  unfold is_alive, regenerate_health, take_damage, heal, add_energy, is_alive.
  intros Hdead Hamount. rewrite Hdead. cbn. repeat split; lia.
Qed.

(** X3. Damage and regeneration keep the health between 0 and the
    maximum: [take_damage] of a non-negative amount returns a damage
    between 0 and that amount and never raises the health;
    [regenerate_health] never lowers it. *)
Theorem health_stays_within_bounds (c : t) (amount : Z) :
  0 <= current_health c <= max_health c ->
  0 <= amount ->
  let hit := snd (take_damage c amount) in
  let rested := regenerate_health c in
  0 <= fst (take_damage c amount) <= amount
  /\ 0 <= current_health hit <= current_health c
  /\ max_health hit = max_health c
  /\ current_health c <= current_health rested <= max_health rested
  /\ max_health rested = max_health c.
Proof.
  unfold take_damage, regenerate_health. intros Hh Ha. cbn.
  destruct (is_alive c && _); cbn; lia.
Qed.

(** X4. [use_ultimate] on another character: with enough energy the
    cost is paid, the target loses [min(ultimate_damage, health)],
    which is returned, and no other object changes; without, 0 is
    returned and nothing changes. *)
Theorem use_ultimate_pays_then_hits (h : store) (self target : ref) :
  self <> target ->
  let a := h self in
  let v := h target in
  let damage := fst (use_ultimate h self target) in
  let h' := snd (use_ultimate h self target) in
  if ultimate_energy_cost a <=? energy a then
    damage = Z.min (ultimate_damage a) (current_health v)
    /\ h' self = set_energy (energy a - ultimate_energy_cost a) a
    /\ h' target = set_current_health (current_health v - damage) v
    /\ (forall r, r <> self -> r <> target -> h' r = h r)
  else damage = 0 /\ h' = h.
Proof.
  intros Hne. cbn zeta. unfold use_ultimate.
  destruct (_ <=? _); [|split; reflexivity].
  rewrite store_lookup_insert, store_lookup_insert_ne by exact Hne.
  unfold take_damage. cbn [fst snd ultimate_damage set_energy].
  rewrite store_lookup_insert.
  rewrite store_lookup_insert_ne, store_lookup_insert by congruence.
  repeat split. intros r Hs Ht. rewrite !store_lookup_insert_ne by congruence.
  reflexivity.
Qed.

End Cards.

Lemma add_energy_saturates_witness :
  let c := sample_heap 1%nat in
  let c' := Nat.iter 12 Character.add_energy c in
  Character.energy c' = Z.min (Character.energy c + Z.of_nat 12) 10
  /\ Character.current_health c' = Character.current_health c
  /\ static c' = static c.
Proof. apply (add_energy_saturates (sample_heap 1%nat) 12). vm_compute. discriminate. Defined.

Lemma dead_character_is_not_revived_witness :
  let c := sample_heap 3%nat in
  Character.is_alive (snd (Character.take_damage c 100)) = false
  /\ Character.regenerate_health c = c
  /\ Character.is_alive (Character.heal c 100) = false
  /\ Character.is_alive (Character.add_energy c) = false.
Proof.
  apply (dead_character_is_not_revived (sample_heap 3%nat) 100); [reflexivity | lia].
Defined.

Lemma health_stays_within_bounds_witness :
  let c := Character.set_current_health 120 (sample_heap 1%nat) in
  let hit := snd (Character.take_damage c 500) in
  let rested := Character.regenerate_health c in
  0 <= fst (Character.take_damage c 500) <= 500
  /\ 0 <= Character.current_health hit <= Character.current_health c
  /\ Character.max_health hit = Character.max_health c
  /\ Character.current_health c <= Character.current_health rested
      <= Character.max_health rested
  /\ Character.max_health rested = Character.max_health c.
Proof.
  apply (health_stays_within_bounds
           (Character.set_current_health 120 (sample_heap 1%nat)) 500);
    [vm_compute; split; discriminate | lia].
Defined.

Lemma use_ultimate_pays_then_hits_witness :
  let h := <[0%nat := Character.set_energy 3 (sample_heap 0%nat)]> sample_heap in
  let damage := fst (Character.use_ultimate h 0%nat 8%nat) in
  let h' := snd (Character.use_ultimate h 0%nat 8%nat) in
  damage = Z.min 250 150
  /\ h' 0%nat = Character.set_energy (3 - 1) (h 0%nat)
  /\ h' 8%nat = Character.set_current_health (150 - damage) (h 8%nat)
  /\ (forall r, r <> 0%nat -> r <> 8%nat -> h' r = h r).
Proof.
  exact (use_ultimate_pays_then_hits
           (<[0%nat := Character.set_energy 3 (sample_heap 0%nat)]> sample_heap)
           0%nat 8%nat ltac:(discriminate)).
Defined.

(** ** Hands, fields and decks *)

Section Hands.

Lemma list_remove_permutation (c : nat) (l : list nat) :
  c ∈ l -> l ≡ₚ c :: list_remove c l.
Proof.
  induction l as [|x l IH]; intros Hin; [inversion Hin|].
  cbn. destruct (Nat.eqb_spec x c) as [->|Hne]; [reflexivity|].
  apply elem_of_cons in Hin as [->|Hin]; [contradiction|].
  rewrite (IH Hin) at 1. apply Permutation_swap.
Qed.

(** X5. [play_card] succeeds exactly when the card is in the hand,
    the energy pays its cost and the field holds fewer than five
    characters.  It then takes one occurrence of the card out of the
    hand, puts it at the end of the field and pays the cost; a refused
    play changes nothing. *)
Theorem play_card_moves_one_card (h : Character.store) (p : Player.t)
    (c : Character.ref) :
  let ok := fst (Player.play_card h p c) in
  let p' := snd (Player.play_card h p c) in
  ok = bool_decide (c ∈ Player.hand p) && Player.can_play_card h p c
  /\ if ok then
       Player.hand p ≡ₚ c :: Player.hand p'
       /\ Player.field p' = Player.field p ++ [c]
       /\ (length (Player.field p') <= 5)%nat
       /\ Player.energy p' = Player.energy p - Character.cost (h c)
       /\ Player.life_points p' = Player.life_points p
       /\ Player.deck p' = Player.deck p
     else p' = p.
Proof.
  cbn zeta. unfold Player.play_card, Player.can_play_card.
  rewrite <- andb_assoc.
  destruct (bool_decide (c ∈ Player.hand p)) eqn:Hin; cbn [andb]; [|cbn; auto].
  destruct (_ <=? _) eqn:Hcost; cbn [andb]; [|cbn; auto].
  destruct (_ <? _) eqn:Hfield; cbn [andb fst snd]; [|cbn; auto].
  apply bool_decide_eq_true in Hin. split; [reflexivity|]. cbn.
  rewrite length_app. cbn. repeat split; [|lia].
  apply list_remove_permutation. exact Hin.
Qed.

(** X6. [draw_cards] moves cards from the top of the deck to the end
    of the hand, in their order: the hand followed by the deck reads
    the same before and after.  As many cards move as were asked for,
    or as the deck holds if that is fewer, and the call reports
    whether any card moved. *)
Theorem draw_cards_moves_the_top_cards (p : Player.t) (count : nat) :
  let ok := fst (Player.draw_cards p count) in
  let p' := snd (Player.draw_cards p count) in
  let moved := Nat.min count (length (Deck.cards (Player.deck p))) in
  Player.hand p' ++ Deck.cards (Player.deck p')
  = Player.hand p ++ Deck.cards (Player.deck p)
  /\ Player.hand p' = Player.hand p ++ take moved (Deck.cards (Player.deck p))
  /\ length (Deck.cards (Player.deck p'))
     = (length (Deck.cards (Player.deck p)) - moved)%nat
  /\ ok = negb (Nat.eqb moved 0)
  /\ Deck.graveyard (Player.deck p') = Deck.graveyard (Player.deck p)
  /\ Player.field p' = Player.field p
  /\ Player.energy p' = Player.energy p
  /\ Player.life_points p' = Player.life_points p.
Proof.
  cbn zeta. unfold Player.draw_cards, Deck.draw.
  destruct p as [name [cards graveyard] hand field lp energy me]. cbn.
  destruct cards as [|x cards]; cbn.
  - rewrite Nat.min_0_r, !app_nil_r. cbn. auto 10.
  - destruct count as [|count]; cbn.
    + rewrite !app_nil_r. auto 10.
    + rewrite length_drop, <- app_assoc. cbn. rewrite take_drop.
      repeat split.
Qed.

(** X7. Damage to a player adds up and stops at 0: two hits of
    non-negative amounts leave the player as one hit of their sum
    does, with life points that are not negative and not above those
    before. *)
Theorem player_damage_adds_up (p : Player.t) (a b : Z) :
  0 <= a -> 0 <= b ->
  Player.take_damage (Player.take_damage p a) b = Player.take_damage p (a + b)
  /\ 0 <= Player.life_points (Player.take_damage p a)
  /\ (0 <= Player.life_points p ->
      Player.life_points (Player.take_damage p a) <= Player.life_points p).
Proof.
  intros Ha Hb. unfold Player.take_damage, Player.set_life_points. cbn.
  repeat split; [f_equal|..]; lia.
Qed.

(** X8. A new player holds the first five cards of the deck, all of
    them when the deck has fewer, with an empty field, 2000 life points
    and no energy; the deck keeps the rest, in order. *)
Theorem new_player_holds_the_top_five (name : string) (deck : Deck.t) :
  let p := Player.init name deck in
  Player.hand p = take 5 (Deck.cards deck)
  /\ Deck.cards (Player.deck p) = drop 5 (Deck.cards deck)
  /\ Deck.graveyard (Player.deck p) = Deck.graveyard deck
  /\ Player.field p = []
  /\ Player.life_points p = 2000
  /\ Player.energy p = 0
  /\ Player.max_energy p = 10
  /\ Player.name p = name.
Proof.
  cbn zeta. unfold Player.init, Player.draw_cards, Deck.draw.
  destruct deck as [cards graveyard]. cbn [Deck.cards Deck.graveyard].
  destruct cards as [|x1 [|x2 [|x3 [|x4 [|x5 rest]]]]]; cbn;
    rewrite ?take_0, ?drop_0; auto 10.
Qed.

End Hands.

Lemma player_damage_adds_up_witness :
  let p := Player.init "Player 1" (Deck.mk [0; 1; 2]%nat []) in
  Player.take_damage (Player.take_damage p 1500) 700 = Player.take_damage p (1500 + 700)
  /\ 0 <= Player.life_points (Player.take_damage p 1500)
  /\ (0 <= Player.life_points p ->
      Player.life_points (Player.take_damage p 1500) <= Player.life_points p).
Proof.
  apply (player_damage_adds_up (Player.init "Player 1" (Deck.mk [0; 1; 2]%nat [])) 1500 700);
    lia.
Defined.

(** ** Further properties of the battle *)

(** *** The target of an attack *)

Lemma max_by_first_largest {A} (key : A -> Z) (l : list A) :
  forall best,
    exists l1 l2,
      best :: l = l1 ++ max_by key best l :: l2
      /\ Forall (fun y => key y < key (max_by key best l)) l1
      /\ Forall (fun y => key y <= key (max_by key best l)) l2.
Proof.
  induction l as [|y l IH]; intros best; cbn.
  - exists [], []. auto.
  - destruct (key best <? key y) eqn:E.
    + destruct (IH y) as (l1 & l2 & Heq & H1 & H2).
      exists (best :: l1), l2. rewrite Heq. split; [reflexivity|]. split; [|exact H2].
      constructor; [|exact H1].
      assert (Hy : key y <= key (max_by key y l)).
      { destruct l1 as [|z l1]; cbn in Heq; injection Heq as Hz _.
        - rewrite <- Hz. lia.
        - subst z. apply Forall_cons in H1 as [H1 _]. lia. }
      lia.
    + destruct (IH best) as (l1 & l2 & Heq & H1 & H2).
      destruct l1 as [|z l1]; cbn in Heq; injection Heq as Hz Hl.
      * subst l2. exists [], (y :: l). rewrite <- Hz. cbn.
        split; [reflexivity|]. split; [constructor|].
        rewrite <- Hz in H2. constructor; [lia | exact H2].
      * subst z. apply Forall_cons in H1 as [Hb H1].
        exists (best :: y :: l1), l2. split; [cbn; do 2 f_equal; exact Hl|].
        split; [|exact H2]. constructor; [exact Hb|]. constructor; [lia | exact H1].
Qed.

(** X9. The character an attack picks: [max(field, key=...)] returns
    the first character of the field among those with the largest key
    (the current health for an ultimate, the attack for a basic
    attack), and there is none only on an empty field. *)
Theorem py_max_picks_the_first_largest {A} (key : A -> Z) (l : list A) :
  match py_max key l with
  | Some x =>
      exists l1 l2,
        l = l1 ++ x :: l2
        /\ Forall (fun y => key y < key x) l1
        /\ Forall (fun y => key y <= key x) l2
  | None => l = []
  end.
Proof.
  destruct l as [|x l]; cbn; [reflexivity|]. apply max_by_first_largest.
Qed.

(** *** Battles with the lookup of the source *)

Section SourceBattle.

Import Battle.

Local Ltac by_cases :=
  repeat match goal with
         | |- context [match ?x with _ => _ end] => destruct x eqn:?
         end;
  try reflexivity.

Lemma play_step_deals_nothing s b c :
  (life_points (play_step s b c), damage_stats (play_step s b c),
   ability_usage_tracker (play_step s b c))
  = (life_points b, damage_stats b, ability_usage_tracker b).
Proof.
  unfold life_points, play_step, Player.play_card. destruct s; cbn; by_cases.
Qed.

Lemma draw_cards_life_points p n :
  Player.life_points (snd (Player.draw_cards p n)) = Player.life_points p.
Proof.
  unfold Player.draw_cards. destruct (Deck.draw _ _) as [drawn d].
  destruct drawn; reflexivity.
Qed.

Lemma source_turn_deals_nothing s b :
  let b' := snd (process_turn ultimate_abilities.get_ultimate_ability s b) in
  (life_points b', damage_stats b', ability_usage_tracker b')
  = (life_points b, damage_stats b, ability_usage_tracker b).
Proof.
  unfold process_turn. cbn zeta. cbn [snd].
  rewrite (foldl_frame regenerate_step
             (fun b => (life_points b, damage_stats b, ability_usage_tracker b)))
    by reflexivity.
  unfold _process_actions, combat_phase.
  rewrite (foldl_frame (combat_step ultimate_abilities.get_ultimate_ability s)
             (fun b => (life_points b, damage_stats b, ability_usage_tracker b)))
    by reflexivity.
  unfold play_phase.
  rewrite (foldl_frame (play_step s)
             (fun b => (life_points b, damage_stats b, ability_usage_tracker b)))
    by (intros; apply play_step_deals_nothing).
  unfold life_points.
  destruct (0 <? _); destruct s; cbn; rewrite ?draw_cards_life_points; reflexivity.
Qed.

Lemma source_round_deals_nothing b :
  0 < Player.life_points (player1 b) ->
  0 < Player.life_points (player2 b) ->
  let b' := snd (turn_pair ultimate_abilities.get_ultimate_ability b) in
  fst (turn_pair ultimate_abilities.get_ultimate_ability b) = None
  /\ (life_points b', damage_stats b', ability_usage_tracker b')
     = (life_points b, damage_stats b, ability_usage_tracker b).
Proof.
  intros H1 H2. unfold turn_pair.
  set (b0 := set_placements_this_turn fresh_placements b).
  pose proof (source_turn_deals_nothing P1 b0) as E1. cbn zeta in E1.
  assert (F1 : fst (process_turn ultimate_abilities.get_ultimate_ability P1 b0)
               = (Player.life_points
                    (player2 (snd (process_turn ultimate_abilities.get_ultimate_ability
                                     P1 b0))) <=? 0)) by reflexivity.
  destruct (process_turn ultimate_abilities.get_ultimate_ability P1 b0) as [won1 b1].
  cbn [fst snd] in *. injection E1 as E1a E1b E1c E1d. unfold life_points in *.
  cbn in E1a, E1b.
  replace won1 with false by (rewrite F1; lia).
  pose proof (source_turn_deals_nothing P2 b1) as E2. cbn zeta in E2.
  assert (F2 : fst (process_turn ultimate_abilities.get_ultimate_ability P2 b1)
               = (Player.life_points
                    (player1 (snd (process_turn ultimate_abilities.get_ultimate_ability
                                     P2 b1))) <=? 0)) by reflexivity.
  destruct (process_turn ultimate_abilities.get_ultimate_ability P2 b1) as [won2 b2].
  cbn [fst snd] in *. injection E2 as E2a E2b E2c E2d.
  replace won2 with false by (rewrite F2; lia).
  cbn. split; [reflexivity|]. congruence.
Qed.

Lemma source_rounds_deal_nothing (n : nat) :
  forall b,
    0 < Player.life_points (player1 b) ->
    0 < Player.life_points (player2 b) ->
    no_winner_within ultimate_abilities.get_ultimate_ability n b = true
    /\ (life_points (after_rounds ultimate_abilities.get_ultimate_ability n b),
        damage_stats (after_rounds ultimate_abilities.get_ultimate_ability n b),
        ability_usage_tracker (after_rounds ultimate_abilities.get_ultimate_ability n b))
       = (life_points b, damage_stats b, ability_usage_tracker b).
Proof.
  induction n as [|n IH]; intros b H1 H2; cbn [no_winner_within after_rounds].
  - auto.
  - destruct (source_round_deals_nothing b H1 H2) as [Hw Hsame]. cbn zeta in Hsame.
    destruct (turn_pair ultimate_abilities.get_ultimate_ability b) as [w b'].
    cbn [fst snd] in *. subst w.
    injection Hsame as Ha1 Ha2 Hb Hc.
    destruct (IH b') as [Hno Hrest]; [lia | lia |].
    split; [exact Hno|]. rewrite Hrest. unfold life_points. congruence.
Qed.

Lemma source_battle_runs_to_the_cap (b : t) (n fuel : nat) :
  0 < Player.life_points (player1 b) ->
  0 < Player.life_points (player2 b) ->
  current_turn b + Z.of_nat n = max_turns + 1 ->
  (n < fuel)%nat ->
  simulate_battle ultimate_abilities.get_ultimate_ability fuel b
  = Some (winner_at_cap b, after_rounds ultimate_abilities.get_ultimate_ability n b)
  /\ life_points (after_rounds ultimate_abilities.get_ultimate_ability n b)
     = life_points b
  /\ damage_stats (after_rounds ultimate_abilities.get_ultimate_ability n b)
     = damage_stats b
  /\ ability_usage_tracker (after_rounds ultimate_abilities.get_ultimate_ability n b)
     = ability_usage_tracker b.
Proof.
  intros H1 H2 Hturn Hfuel.
  destruct (source_rounds_deal_nothing n b H1 H2) as [Hno Hsame].
  pose proof (simulate_battle_rounds _ n b fuel Hturn Hno Hfuel) as Hrun.
  generalize dependent (after_rounds ultimate_abilities.get_ultimate_ability n b).
  intros final Hsame Hrun. injection Hsame as Hl1 Hl2 Hd Ha.
  rewrite Hrun. unfold life_points, winner_at_cap. rewrite Hl1, Hl2. auto.
Qed.

Lemma fresh_battle_starts_even (h : Character.store) (p1 p2 : Player.t) :
  life_points (init h p1 p2) = (2000, 2000)
  /\ total_damage (damage_stats (init h p1 p2)) = 0
  /\ winner_at_cap (init h p1 p2) = P2
  /\ current_turn (init h p1 p2) + Z.of_nat 50 = max_turns + 1.
Proof. repeat split. Qed.

(** X10. With the lookup of the source no battle deals any damage:
    while both players have life points, [simulate_battle] finds no
    winner in any round, runs to the cap, and ends with the life points
    and the damage statistics it started with; the winner is the one the
    tie-break rule picks on the life points at the start. *)
Theorem source_battle_deals_no_damage (b : t) (n fuel : nat) :
  0 < Player.life_points (player1 b) ->
  0 < Player.life_points (player2 b) ->
  current_turn b + Z.of_nat n = max_turns + 1 ->
  (n < fuel)%nat ->
  let final := after_rounds ultimate_abilities.get_ultimate_ability n b in
  simulate_battle ultimate_abilities.get_ultimate_ability fuel b
  = Some (winner_at_cap b, final)
  /\ life_points final = life_points b
  /\ damage_stats final = damage_stats b
  /\ ability_usage_tracker final = ability_usage_tracker b.
Proof. exact (source_battle_runs_to_the_cap b n fuel). Qed.

(** X11. So player 2 wins every battle that [Battle(player1, player2)]
    starts: both players are set to 2000 life points, nobody loses any,
    and the tie at the cap of 50 rounds goes to player 2, whatever the
    cards. *)
Theorem player_two_wins_every_fresh_battle
    (h : Character.store) (p1 p2 : Player.t) (fuel : nat) :
  (51 <= fuel)%nat ->
  let final := after_rounds ultimate_abilities.get_ultimate_ability 50 (init h p1 p2) in
  simulate_battle ultimate_abilities.get_ultimate_ability fuel (init h p1 p2)
  = Some (P2, final)
  /\ life_points final = (2000, 2000)
  /\ total_damage (damage_stats final) = 0.
Proof.
  intros Hfuel.
  destruct (fresh_battle_starts_even h p1 p2) as (Hl0 & Hd0 & Hw0 & Hturn).
  assert (H1 : 0 < Player.life_points (player1 (init h p1 p2))) by reflexivity.
  assert (H2 : 0 < Player.life_points (player2 (init h p1 p2))) by reflexivity.
  assert (Hfuel' : (50 < fuel)%nat) by lia.
  destruct (source_battle_runs_to_the_cap (init h p1 p2) 50 fuel H1 H2 Hturn Hfuel')
    as (Hrun & Hl & Hd & Ha).
  cbn zeta.
  generalize dependent (after_rounds ultimate_abilities.get_ultimate_ability 50
                          (init h p1 p2)).
  intros final Hrun Hl Hd Ha. rewrite Hrun, Hl, Hd, Hl0, Hd0, Hw0. auto.
Qed.

End SourceBattle.

Lemma source_battle_deals_no_damage_witness :
  let lookup := ultimate_abilities.get_ultimate_ability in
  let final := after_rounds lookup 50 doll_battle in
  Battle.simulate_battle lookup 60 doll_battle
  = Some (Battle.winner_at_cap doll_battle, final)
  /\ life_points final = life_points doll_battle
  /\ Battle.damage_stats final = Battle.damage_stats doll_battle
  /\ Battle.ability_usage_tracker final = Battle.ability_usage_tracker doll_battle.
Proof.
  apply (source_battle_deals_no_damage doll_battle 50 60);
    [reflexivity | reflexivity | reflexivity | lia].
Defined.

Lemma player_two_wins_every_fresh_battle_witness :
  let lookup := ultimate_abilities.get_ultimate_ability in
  let p1 := Player.init "Player 1" (Deck.mk [0; 1; 2; 4; 5; 6; 7]%nat []) in
  let p2 := Player.init "Player 2" (Deck.mk [8; 9; 10; 11; 12; 13; 14]%nat []) in
  let final := after_rounds lookup 50 (Battle.init sample_heap p1 p2) in
  Battle.simulate_battle lookup 51 (Battle.init sample_heap p1 p2)
  = Some (Battle.P2, final)
  /\ life_points final = (2000, 2000)
  /\ Battle.total_damage (Battle.damage_stats final) = 0.
Proof.
  apply (player_two_wins_every_fresh_battle sample_heap
           (Player.init "Player 1" (Deck.mk [0; 1; 2; 4; 5; 6; 7]%nat []))
           (Player.init "Player 2" (Deck.mk [8; 9; 10; 11; 12; 13; 14]%nat [])) 51).
  lia.
Defined.

(** *** The rounds of a battle *)

Section Rounds.

Import Battle.

Variable lookup : ultimate_abilities.lookup_fn.

(** The battle that [simulate_battle] returns is the one after some
    number of rounds: none when the turn counter is past the cap at the
    start, one at least otherwise. *)
Lemma simulate_battle_final (fuel : nat) :
  forall b w final,
    simulate_battle lookup fuel b = Some (w, final) ->
    exists k, final = after_rounds lookup k b
              /\ (current_turn b <= max_turns -> (0 < k)%nat).
Proof.
  induction fuel as [|fuel IH]; intros b w final Hrun; [discriminate|].
  cbn [simulate_battle] in Hrun.
  destruct (current_turn b <=? max_turns) eqn:Hturn.
  - destruct (turn_pair lookup b) as [[w'|] b'] eqn:Hpair.
    + injection Hrun as <- <-. exists 1%nat. cbn [after_rounds]. rewrite Hpair. split; [reflexivity|lia].
    + apply IH in Hrun as (k & -> & _). exists (S k). cbn [after_rounds]. rewrite Hpair.
      split; [reflexivity|lia].
  - injection Hrun as <- <-. exists 0%nat. split; [reflexivity|lia].
Qed.

Lemma turn_pair_names b :
  Player.name (player1 (snd (turn_pair lookup b))) = Player.name (player1 b)
  /\ Player.name (player2 (snd (turn_pair lookup b))) = Player.name (player2 b).
Proof.
  unfold turn_pair.
  set (b0 := set_placements_this_turn fresh_placements b).
  pose proof (process_turn_never_removes lookup P1 b0) as (_ & _ & H1).
  destruct (process_turn lookup P1 b0) as [won1 b1]. cbn [snd] in H1.
  unfold untouched in H1. injection H1 as _ _ H1a H1b.
  destruct won1; [cbn; auto|].
  pose proof (process_turn_never_removes lookup P2 b1) as (_ & _ & H2).
  destruct (process_turn lookup P2 b1) as [won2 b2]. cbn [snd] in H2.
  unfold untouched in H2. injection H2 as _ _ H2a H2b.
  destruct won2; cbn; split; congruence.
Qed.

Lemma after_rounds_counters_capped (k : nat) :
  forall b key n,
    Player.name (player1 b) <> Player.name (player2 b) ->
    (0 < k)%nat ->
    placements_this_turn (after_rounds lookup k b) !! key = Some n ->
    0 <= n <= 2.
Proof.
  induction k as [|k IH]; intros b key n Hnames Hk Hn; [lia|].
  cbn [after_rounds] in Hn. destruct k as [|k].
  - cbn [after_rounds] in Hn. eapply turn_pair_counters_capped; eassumption.
  - eapply IH; [|lia|exact Hn].
    destruct (turn_pair_names b) as [-> ->]. exact Hnames.
Qed.

(** X12. [simulate_battle] ends, whatever the lookup does and whatever
    the cards: from turn [t] its loop runs 51 - [t] times at most, so
    that much fuel and one unit more give a winner and a final
    battle. *)
Theorem simulate_battle_always_ends (b : t) (fuel : nat) :
  (Z.to_nat (max_turns + 1 - current_turn b) < fuel)%nat ->
  exists w final, simulate_battle lookup fuel b = Some (w, final).
Proof.
  intros Hfuel.
  destruct (simulate_battle_terminates lookup
              (Z.to_nat (max_turns + 1 - current_turn b)) b fuel) as [[w final] Hrun];
    [lia | exact Hfuel | eauto].
Qed.

(** X13. In the battle that [simulate_battle] returns no placement
    counter is above 2, when the two players have different names and
    the loop has run at least once: the counters are reset at the start
    of a round and a play phase adds 2 at most to the counter of its
    player. *)
Theorem placement_counters_stay_within_two
    (b : t) (fuel : nat) (w : side) (final : t) :
  Player.name (player1 b) <> Player.name (player2 b) ->
  current_turn b <= max_turns ->
  simulate_battle lookup fuel b = Some (w, final) ->
  forall key n, placements_this_turn final !! key = Some n -> 0 <= n <= 2.
Proof.
  intros Hnames Hturn Hrun key n Hn.
  apply simulate_battle_final in Hrun as (k & -> & Hk).
  eapply after_rounds_counters_capped; [exact Hnames | auto | exact Hn].
Qed.

End Rounds.

Lemma simulate_battle_always_ends_witness :
  exists w final, Battle.simulate_battle no_ultimate 51 opening_battle = Some (w, final).
Proof.
  apply (simulate_battle_always_ends no_ultimate opening_battle 51).
  vm_compute. lia.
Defined.

Lemma placement_counters_stay_within_two_witness :
  Battle.placements_this_turn
    (after_rounds ultimate_abilities.get_ultimate_ability 50 opening_battle) !! "Player 1"
  = Some 0
  /\ 0 <= 0 <= 2.
Proof.
  split; [vm_compute; reflexivity|].
  apply (placement_counters_stay_within_two ultimate_abilities.get_ultimate_ability
           opening_battle 51
           (Battle.winner_at_cap
              (after_rounds ultimate_abilities.get_ultimate_ability 50 opening_battle))
           (after_rounds ultimate_abilities.get_ultimate_ability 50 opening_battle))
    with (key := "Player 1").
  - vm_compute. discriminate.
  - vm_compute. discriminate.
  - apply simulate_battle_rounds; [reflexivity | vm_compute; reflexivity | lia].
  - vm_compute. reflexivity.
Defined.

(** *** Other paths of the combat and of the turn *)

Section Paths.

Import Battle.

(** X14. [process_combat] is the body of the combat loop without its
    [try]: for any lookup, a round of the loop is [process_combat], or
    the logged failure when it raises.  With the lookup of the source
    [process_combat] raises [TypeError] at every call, before it has
    changed anything. *)
Theorem process_combat_is_the_unguarded_step
    (lookup : ultimate_abilities.lookup_fn) (s : side) (b : t)
    (attacker : Character.ref) :
  combat_step lookup s b attacker
  = match process_combat lookup s b attacker with
    | Returned b' => b'
    | Raised _ => log (LogCombatFailed (Character.name (heap b attacker))) b
    end
  /\ process_combat ultimate_abilities.get_ultimate_ability s b attacker
     = Raised TypeError.
Proof.
  split; [|reflexivity].
  unfold combat_step, process_combat.
  destruct (lookup _ _) as [[u|]|e]; cbn [mbind exc_bind]; [| |reflexivity].
  - destruct (py_max _ _) as [target|]; [|reflexivity].
    destruct (_ <=? _); [|reflexivity].
    destruct (Character.use_ultimate _ _ _) as [damage h].
    destruct (0 <? damage); reflexivity.
  - reflexivity.
Qed.





Lemma card_playing_step_player (s : side) (b : t) (c : Character.ref)
    (lines : list BalanceSimulator.PlayLine) :
  fst (BalanceSimulator.card_playing_step (heap b) (player s b, lines) c)
  = player s (play_step s b c)
  /\ heap (play_step s b c) = heap b.
Proof.
  unfold BalanceSimulator.card_playing_step, play_step, Player.play_card.
  destruct (Character.cost (heap b c) <=? Player.energy (player s b)) eqn:Hcost;
    cbn [andb fst snd].
  - rewrite andb_true_r.
    destruct (Z.of_nat (length (Player.field (player s b))) <? 5) eqn:Hroom;
      cbn [andb fst snd].
    + destruct (bool_decide _); cbn [andb snd]; destruct s; cbn;
        repeat match goal with
               | |- context [match ?x with _ => _ end] => destruct x
               end;
        auto.
    + rewrite andb_false_r. cbn. auto.
  - auto.
Qed.

Lemma card_playing_steps_player (s : side) (l : list Character.ref) :
  forall b lines,
    fst (foldl (BalanceSimulator.card_playing_step (heap b)) (player s b, lines) l)
    = player s (foldl (play_step s) b l).
Proof.
  induction l as [|c l IH]; intros b lines; cbn [foldl]; [reflexivity|].
  destruct (card_playing_step_player s b c lines) as [Hp Hh].
  destruct (BalanceSimulator.card_playing_step (heap b) (player s b, lines) c)
    as [p' lines'] eqn:E.
  cbn [fst] in Hp. subst p'. rewrite <- Hh. apply IH.
Qed.

(** X16. The detailed battle of the simulator plays the same cards as
    the engine: [_process_card_playing] leaves the player as the play
    phase of [_process_actions] does. *)
Theorem card_playing_agrees_with_the_play_phase (s : side) (b : t) :
  fst (BalanceSimulator._process_card_playing (heap b) (player s b))
  = player s (play_phase s b).
Proof.
  unfold BalanceSimulator._process_card_playing, play_phase, playable_cards.
  destruct (filter _ _) as [|c l] eqn:E; [reflexivity|].
  apply card_playing_steps_player.
Qed.

(** X17. An ultimate that deals no damage is paid for all the same, and
    the basic attack follows: when the lookup finds an ultimate, the
    energy pays it and the damage is 0 or less (an ultimate damage of 0,
    or a target without health), the attacker loses the cost, makes its
    basic attack and gains its point of energy, and nothing is recorded
    as an ultimate. *)
Theorem idle_ultimate_is_paid_for
    (lookup : ultimate_abilities.lookup_fn) (s : side) (b : t)
    (attacker target : Character.ref) (u : ultimate_abilities.UltimateAbility) :
  let a := heap b attacker in
  lookup (Character.name a) (Character.variant a) = Returned (Some u) ->
  py_max (fun x => Character.current_health (heap b x))
         (Player.field (player (other s) b)) = Some target ->
  Character.ultimate_energy_cost a <= Character.energy a ->
  Z.min (Character.ultimate_damage a) (Character.current_health (heap b target)) <= 0 ->
  let b' := combat_step lookup s b attacker in
  b' = regular_combat s attacker
         (set_heap (snd (Character.use_ultimate (heap b) attacker target)) b)
  /\ Character.energy (heap b' attacker)
     = Z.min (Character.energy a - Character.ultimate_energy_cost a + 1) 10
  /\ ultimate (damage_stats b') = ultimate (damage_stats b)
  /\ ability_usage_tracker b' = ability_usage_tracker b.
Proof.
  intros a Hlookup Htarget Hcost Hdamage. cbn zeta.
  unfold combat_step. fold a. rewrite Hlookup, Htarget.
  replace (Character.ultimate_energy_cost a <=? Character.energy a) with true by lia.
  assert (Hu : Character.use_ultimate (heap b) attacker target
               = (Z.min (Character.ultimate_damage a)
                        (Character.current_health (heap b target)),
                  snd (Character.use_ultimate (heap b) attacker target))).
  { unfold Character.use_ultimate. fold a.
    replace (Character.ultimate_energy_cost a <=? Character.energy a) with true by lia.
    rewrite store_lookup_insert. unfold Character.take_damage. cbn [fst snd].
    f_equal. cbn [Character.ultimate_damage Character.set_energy].
    destruct (decide (attacker = target)) as [<-|Hne].
    - rewrite store_lookup_insert. reflexivity.
    - rewrite store_lookup_insert_ne by exact Hne. reflexivity. }
  rewrite Hu.
  replace (0 <? Z.min _ _) with false by lia.
  split; [reflexivity|].
  assert (He : Character.energy
                 (snd (Character.use_ultimate (heap b) attacker target) attacker)
               = Character.energy a - Character.ultimate_energy_cost a).
  { unfold Character.use_ultimate. fold a.
    replace (Character.ultimate_energy_cost a <=? Character.energy a) with true by lia.
    rewrite store_lookup_insert. unfold Character.take_damage. cbn [snd].
    destruct (decide (target = attacker)) as [->|Hne].
    - rewrite !store_lookup_insert. reflexivity.
    - rewrite store_lookup_insert_ne, store_lookup_insert by exact Hne. reflexivity. }
  set (b0 := set_heap _ b) in *.
  assert (Hfield : Player.field (player (other s) b0) = Player.field (player (other s) b))
    by (destruct s; reflexivity).
  unfold regular_combat.
  destruct (py_max (fun x => Character.atk (heap b0 x)) (Player.field (player (other s) b0)))
    as [victim|] eqn:Hvictim.
  - unfold Character.take_damage, _update_damage_stats.
    destruct (_ <=? 0); cbn; rewrite store_lookup_insert;
      (destruct (decide (victim = attacker)) as [->|Hne];
       [rewrite store_lookup_insert | rewrite store_lookup_insert_ne by exact Hne]);
      cbn; rewrite He; auto.
  - exfalso. rewrite Hfield in Hvictim.
    destruct (Player.field (player (other s) b)); discriminate.
Qed.

End Paths.

(** *** What a battle keeps *)

Section Invariants.

Import Battle.

Variable lookup : ultimate_abilities.lookup_fn.

Local Ltac by_cases :=
  repeat match goal with
         | |- context [match ?x with _ => _ end] => destruct x eqn:?
         end;
  try reflexivity.

(** **** The attributes that nothing writes *)

Lemma static_insert (h : Character.store) (r x : Character.ref) (c' : Character.t) :
  static c' = static (h r) -> static ((<[r := c']> h) x) = static (h x).
Proof.
  intros Hc. destruct (decide (r = x)) as [->|Hne].
  - rewrite store_lookup_insert. exact Hc.
  - rewrite store_lookup_insert_ne by exact Hne. reflexivity.
Qed.

Lemma play_step_heap s b c : heap (play_step s b c) = heap b.
Proof. unfold play_step, Player.play_card. destruct s; cbn; by_cases. Qed.

Lemma update_damage_stats_heap name damage ty b :
  heap (_update_damage_stats name damage ty b) = heap b
  /\ player1 (_update_damage_stats name damage ty b) = player1 b
  /\ player2 (_update_damage_stats name damage ty b) = player2 b.
Proof. unfold _update_damage_stats. destruct (damage <=? 0), ty; auto. Qed.

Lemma regular_combat_static s a b r :
  static (heap (regular_combat s a b) r) = static (heap b r).
Proof.
  unfold regular_combat.
  destruct (py_max _ _) as [target|].
  - unfold Character.take_damage. cbn [heap set_heap log].
    destruct (update_damage_stats_heap
                (Character.name (heap b a))
                (Z.min (Character.atk (heap b a)) (Character.current_health (heap b target)))
                direct_damage
                (set_heap (<[target := Character.set_current_health
                                          (Character.current_health (heap b target)
                                           - Z.min (Character.atk (heap b a))
                                               (Character.current_health (heap b target)))
                                          (heap b target)]> (heap b)) b))
      as (-> & _ & _).
    cbn [heap set_heap]. rewrite static_insert; [apply static_insert; reflexivity|].
    reflexivity.
  - destruct (update_damage_stats_heap
                (Character.name (heap b a)) (Character.atk (heap b a)) direct_damage
                (set_player (other s)
                   (Player.take_damage (player (other s) b) (Character.atk (heap b a))) b))
      as (Hh & _ & _).
    cbn [heap set_heap log]. rewrite Hh.
    replace (heap (set_player (other s) _ b)) with (heap b) by (destruct s; reflexivity).
    apply static_insert. reflexivity.
Qed.

Lemma use_ultimate_static (h : Character.store) (self target r : Character.ref) :
  static (snd (Character.use_ultimate h self target) r) = static (h r).
Proof.
  unfold Character.use_ultimate. destruct (_ <=? _); [|reflexivity].
  unfold Character.take_damage. cbn [snd].
  rewrite static_insert; [apply static_insert; reflexivity | reflexivity].
Qed.

Lemma combat_step_static s b a r :
  static (heap (combat_step lookup s b a) r) = static (heap b r).
Proof.
  unfold combat_step.
  destruct (lookup _ _) as [[u|]|e]; [| |reflexivity].
  - destruct (py_max _ _) as [target|]; [|apply regular_combat_static].
    destruct (_ <=? _); [|apply regular_combat_static].
    pose proof (use_ultimate_static (heap b) a target r) as Hu.
    destruct (Character.use_ultimate _ _ _) as [damage h]. cbn [snd] in Hu.
    destruct (0 <? damage).
    + cbn [heap log].
      destruct (update_damage_stats_heap (Character.name (heap b a)) damage
                  ultimate_damage (set_heap h b)) as (-> & _ & _).
      exact Hu.
    + rewrite regular_combat_static. exact Hu.
  - apply regular_combat_static.
Qed.

Lemma process_turn_static s b r :
  static (heap (snd (process_turn lookup s b)) r) = static (heap b r).
Proof.
  unfold process_turn. cbn [snd].
  rewrite (foldl_frame regenerate_step (fun b => static (heap b r))).
  2:{ intros a x. unfold regenerate_step. cbn [heap set_heap].
      apply static_insert. unfold Character.regenerate_health.
      destruct (_ && _); reflexivity. }
  unfold _process_actions, combat_phase, play_phase.
  rewrite (foldl_frame (combat_step lookup s) (fun b => static (heap b r)))
    by (intros; apply combat_step_static).
  rewrite (foldl_frame (play_step s) (fun b => static (heap b r)))
    by (intros; rewrite play_step_heap; reflexivity).
  destruct (0 <? _); destruct s; reflexivity.
Qed.

Lemma turn_pair_static b r :
  static (heap (snd (turn_pair lookup b)) r) = static (heap b r).
Proof.
  unfold turn_pair.
  set (b0 := set_placements_this_turn fresh_placements b).
  pose proof (process_turn_static P1 b0 r) as H1.
  destruct (process_turn lookup P1 b0) as [won1 b1]. cbn [snd] in H1.
  destruct won1; [exact H1|].
  pose proof (process_turn_static P2 b1 r) as H2.
  destruct (process_turn lookup P2 b1) as [won2 b2]. cbn [snd] in H2.
  destruct won2; cbn [snd heap set_current_turn]; rewrite H2, H1; reflexivity.
Qed.

Lemma after_rounds_static (k : nat) :
  forall b r, static (heap (after_rounds lookup k b) r) = static (heap b r).
Proof.
  induction k as [|k IH]; intros b r; cbn [after_rounds]; [reflexivity|].
  rewrite IH. apply turn_pair_static.
Qed.

(** X18. A battle writes the health and the energy of a character and
    nothing else about it: name, variant, cost, attack, defense, maximum
    health, effect, ultimate cost, ultimate damage and status effects of
    every character are at the end what they were at the start. *)
Theorem battle_leaves_the_cards_as_printed
    (b : t) (fuel : nat) (w : side) (final : t) :
  simulate_battle lookup fuel b = Some (w, final) ->
  forall r, static (heap final r) = static (heap b r).
Proof.
  intros Hrun r. apply simulate_battle_final in Hrun as (k & -> & _).
  apply after_rounds_static.
Qed.

End Invariants.

(** **** Sound battles *)

Section Soundness.

Import Battle.

Variable lookup : ultimate_abilities.lookup_fn.

Local Ltac split_continues :=
  split; [split; [|split] | split; [|split]].

Lemma continues_refl b : continues b b.
Proof. intros Hs. split_continues; auto; try lia; apply Hs. Qed.

Lemma continues_trans b1 b2 b3 :
  continues b1 b2 -> continues b2 b3 -> continues b1 b3.
Proof.
  intros H12 H23 Hs. destruct (H12 Hs) as (Hs2 & Hd2 & Ha2 & Hb2).
  destruct (H23 Hs2) as (Hs3 & Hd3 & Ha3 & Hb3).
  split_continues; try apply Hs3; auto; lia.
Qed.

Lemma foldl_continues {X} (f : t -> X -> t) :
  (forall b x, continues b (f b x)) ->
  forall l b, continues b (foldl f b l).
Proof.
  intros Hf l. induction l as [|x l IH]; intros b; cbn [foldl].
  - apply continues_refl.
  - eapply continues_trans; [apply Hf | apply IH].
Qed.

(** A step that writes neither the store nor a player. *)
Lemma continues_same b b' :
  heap b' = heap b -> player1 b' = player1 b -> player2 b' = player2 b ->
  continues b b'.
Proof.
  intros Hh H1 H2 Hs. unfold sound. rewrite Hh, H1, H2.
  split_continues; auto; try lia; apply Hs.
Qed.

(** A step that writes one character. *)
Lemma continues_insert b r c' :
  (sound b ->
   well_formed c'
   /\ (Character.is_alive (heap b r) = false -> Character.is_alive c' = false)) ->
  continues b (set_heap (<[r := c']> (heap b)) b).
Proof.
  intros Hc Hs. destruct (Hc Hs) as [Hwf Hdead]. destruct Hs as (Hh & Hp1 & Hp2).
  unfold sound. cbn [heap player1 player2 set_heap].
  split_continues; try assumption; try lia.
  - intros x. destruct (decide (r = x)) as [->|Hne].
    + rewrite store_lookup_insert. exact Hwf.
    + rewrite store_lookup_insert_ne by exact Hne. apply Hh.
  - intros x. destruct (decide (r = x)) as [->|Hne].
    + rewrite store_lookup_insert. exact Hdead.
    + rewrite store_lookup_insert_ne by exact Hne. auto.
Qed.

(** A step that writes one player. *)
Lemma continues_set_player s b p' :
  (sound b ->
   player_sound p' /\ Player.life_points p' <= Player.life_points (player s b)) ->
  continues b (set_player s p' b).
Proof.
  intros Hp Hs. destruct (Hp Hs) as [Hps Hlp]. destruct Hs as (Hh & Hp1 & Hp2).
  unfold sound. destruct s; cbn [heap player1 player2 set_player player] in *;
    split_continues; try assumption; auto; lia.
Qed.

Lemma take_damage_later (c : Character.t) (amount : Z) :
  well_formed c -> 0 <= amount ->
  well_formed (snd (Character.take_damage c amount))
  /\ (Character.is_alive c = false ->
      Character.is_alive (snd (Character.take_damage c amount)) = false).
Proof.
  unfold well_formed, Character.take_damage, Character.is_alive. cbn. lia.
Qed.

Lemma add_energy_later (c : Character.t) :
  well_formed c ->
  well_formed (Character.add_energy c)
  /\ (Character.is_alive c = false ->
      Character.is_alive (Character.add_energy c) = false).
Proof. unfold well_formed, Character.add_energy, Character.is_alive. cbn. lia. Qed.

Lemma regenerate_health_later (c : Character.t) :
  well_formed c ->
  well_formed (Character.regenerate_health c)
  /\ (Character.is_alive c = false ->
      Character.is_alive (Character.regenerate_health c) = false).
Proof.
  unfold well_formed, Character.regenerate_health, Character.is_alive.
  destruct (0 <? Character.current_health c) eqn:E; cbn [andb].
  - destruct (negb _); cbn; lia.
  - rewrite E. lia.
Qed.

Lemma pay_later (c : Character.t) :
  well_formed c ->
  Character.ultimate_energy_cost c <= Character.energy c ->
  well_formed (Character.set_energy
                 (Character.energy c - Character.ultimate_energy_cost c) c)
  /\ (Character.is_alive c = false ->
      Character.is_alive
        (Character.set_energy
           (Character.energy c - Character.ultimate_energy_cost c) c) = false).
Proof. unfold well_formed, Character.is_alive. cbn. lia. Qed.

Lemma regenerate_step_continues b c : continues b (regenerate_step b c).
Proof.
  apply continues_insert. intros Hs. apply regenerate_health_later. apply Hs.
Qed.

Lemma play_step_continues s b c : continues b (play_step s b c).
Proof.
  unfold play_step. destruct (_ && _) eqn:Hok; [|apply continues_refl].
  apply andb_true_iff in Hok as [Hcost Hroom].
  set (b1 := set_player s _ b).
  assert (H1 : continues b b1).
  { apply continues_set_player. intros (Hh & Hp1 & Hp2).
    assert (Hp : player_sound (player s b)) by (destruct s; assumption).
    destruct (Hh c) as (Hc & _).
    unfold Player.play_card. destruct (bool_decide _ && _ && _); cbn [snd]; [|split; [exact Hp|lia]].
    destruct Hp as (He & Hf & Hl). unfold player_sound. cbn.
    rewrite length_app. cbn. lia. }
  eapply continues_trans; [exact H1|].
  apply continues_same;
    repeat match goal with
           | |- context [match ?x with _ => _ end] => destruct x
           end;
    reflexivity.
Qed.

Lemma regular_combat_continues s a b : continues b (regular_combat s a b).
Proof.
  unfold regular_combat.
  set (bm := match py_max _ _ with Some _ => _ | None => _ end).
  assert (Hm : continues b bm).
  { subst bm. destruct (py_max _ _) as [target|].
    - destruct (Character.take_damage (heap b target) (Character.atk (heap b a)))
        as [actual target'] eqn:Htd.
      eapply continues_trans.
      + apply (continues_insert b target target'). intros Hs.
        replace target' with
          (snd (Character.take_damage (heap b target) (Character.atk (heap b a))))
          by (rewrite Htd; reflexivity).
        apply take_damage_later; apply Hs.
      + apply continues_same; cbn [heap player1 player2 log];
          apply update_damage_stats_heap.
    - eapply continues_trans.
      + apply (continues_set_player (other s) b
                 (Player.take_damage (player (other s) b) (Character.atk (heap b a)))).
        intros (Hh & Hp1 & Hp2).
        assert (Hp : player_sound (player (other s) b)) by (destruct s; assumption).
        destruct (Hh a) as (_ & Ha & _). destruct Hp as (He & Hf & Hl).
        unfold player_sound, Player.take_damage. cbn. lia.
      + apply continues_same; cbn [heap player1 player2 log];
          apply update_damage_stats_heap. }
  eapply continues_trans; [exact Hm|].
  apply continues_insert. intros Hs. apply add_energy_later. apply Hs.
Qed.

Lemma use_ultimate_continues b self target :
  Character.ultimate_energy_cost (heap b self) <= Character.energy (heap b self) ->
  continues b (set_heap (snd (Character.use_ultimate (heap b) self target)) b).
Proof.
  intros Hcost. unfold Character.use_ultimate.
  replace (_ <=? _) with true by lia.
  set (h1 := <[self := _]> (heap b)).
  destruct (Character.take_damage (h1 target) (Character.ultimate_damage (h1 self)))
    as [damage target'] eqn:Htd.
  cbn [snd].
  apply (continues_trans b (set_heap h1 b)).
  - apply continues_insert. intros Hs. apply pay_later; [apply Hs | exact Hcost].
  - change (set_heap (<[target := target']> h1) b)
      with (set_heap (<[target := target']> (heap (set_heap h1 b))) (set_heap h1 b)).
    apply continues_insert. intros Hs.
    replace target' with
      (snd (Character.take_damage (h1 target) (Character.ultimate_damage (h1 self))))
      by (rewrite Htd; reflexivity).
    apply take_damage_later; [apply Hs | apply (proj1 Hs self)].
Qed.

Lemma combat_step_continues s b a : continues b (combat_step lookup s b a).
Proof.
  unfold combat_step.
  destruct (lookup _ _) as [[u|]|e].
  - destruct (py_max _ _) as [target|]; [|apply regular_combat_continues].
    destruct (_ <=? _) eqn:Hcost; [|apply regular_combat_continues].
    pose proof (use_ultimate_continues b a target ltac:(lia)) as Hu.
    destruct (Character.use_ultimate _ _ _) as [damage h]. cbn [snd] in Hu.
    destruct (0 <? damage).
    + eapply continues_trans; [exact Hu|].
      apply continues_same; cbn [heap player1 player2 log];
        apply update_damage_stats_heap.
    + eapply continues_trans; [exact Hu | apply regular_combat_continues].
  - apply regular_combat_continues.
  - apply continues_same; reflexivity.
Qed.

Lemma draw_continues s b :
  continues b (set_player s (snd (Player.draw_cards (player s b) 1)) b).
Proof.
  apply continues_set_player. intros (Hh & Hp1 & Hp2).
  assert (Hp : player_sound (player s b)) by (destruct s; assumption).
  unfold Player.draw_cards. destruct (Deck.draw _ _) as [drawn d].
  destruct drawn; cbn; (split; [exact Hp | lia]).
Qed.

Lemma add_energy_continues s b :
  continues b (set_player s (Player.add_energy (player s b) 1) b).
Proof.
  apply continues_set_player. intros (Hh & Hp1 & Hp2).
  assert (Hp : player_sound (player s b)) by (destruct s; assumption).
  destruct Hp as (He & Hf & Hl). unfold player_sound, Player.add_energy. cbn. lia.
Qed.

Lemma process_turn_continues s b : continues b (snd (process_turn lookup s b)).
Proof.
  unfold process_turn. cbn [snd].
  set (b1 := if 0 <? Deck.cards_remaining _ then _ else b).
  assert (H1 : continues b b1).
  { subst b1. destruct (0 <? _); [apply draw_continues | apply continues_refl]. }
  eapply continues_trans; [exact H1|].
  eapply continues_trans; [apply add_energy_continues|].
  set (b2 := set_player s _ b1).
  unfold _process_actions.
  eapply continues_trans;
    [apply (foldl_continues (play_step s)); intros; apply play_step_continues|].
  fold (play_phase s b2).
  eapply continues_trans;
    [apply (foldl_continues (combat_step lookup s)); intros; apply combat_step_continues|].
  apply (foldl_continues regenerate_step). intros. apply regenerate_step_continues.
Qed.

Lemma turn_pair_continues b : continues b (snd (turn_pair lookup b)).
Proof.
  unfold turn_pair.
  set (b0 := set_placements_this_turn fresh_placements b).
  assert (H0 : continues b b0) by (apply continues_same; reflexivity).
  pose proof (process_turn_continues P1 b0) as H1.
  destruct (process_turn lookup P1 b0) as [won1 b1]. cbn [snd] in H1.
  destruct won1; [cbn [snd]; apply (continues_trans b b0 b1); assumption|].
  pose proof (process_turn_continues P2 b1) as H2.
  destruct (process_turn lookup P2 b1) as [won2 b2]. cbn [snd] in H2.
  assert (H02 : continues b b2)
    by (apply (continues_trans b b0 b2); [exact H0|];
        apply (continues_trans b0 b1 b2); assumption).
  destruct won2; cbn [snd]; [exact H02|].
  eapply continues_trans; [exact H02 | apply continues_same; reflexivity].
Qed.

Lemma after_rounds_continues (k : nat) :
  forall b, continues b (after_rounds lookup k b).
Proof.
  induction k as [|k IH]; intros b; cbn [after_rounds].
  - apply continues_refl.
  - eapply continues_trans; [apply turn_pair_continues | apply IH].
Qed.

(** X19. A sound battle stays sound to its end, whatever the lookup
    does: every character keeps a health between 0 and its maximum and
    an energy between 0 and 10, every player keeps an energy between 0
    and its maximum, at most five characters on the field and life
    points that are not negative; and no player ends with more life
    points than at the start. *)
Theorem sound_battle_stays_sound (b : t) (fuel : nat) (w : side) (final : t) :
  sound b ->
  simulate_battle lookup fuel b = Some (w, final) ->
  sound final
  /\ Player.life_points (player1 final) <= Player.life_points (player1 b)
  /\ Player.life_points (player2 final) <= Player.life_points (player2 b).
Proof.
  intros Hs Hrun. apply simulate_battle_final in Hrun as (k & -> & _).
  destruct (after_rounds_continues k b Hs) as (H1 & _ & H3 & H4). auto.
Qed.


End Soundness.

(** *** The invariants on the samples *)

Lemma sample_heap_well_formed (r : Character.ref) : well_formed (sample_heap r).
Proof.
  do 4 (destruct r as [|r]; [vm_compute; intuition discriminate|]).
  vm_compute; intuition discriminate.
Qed.

Lemma opening_battle_sound : sound opening_battle.
Proof.
  split; [exact sample_heap_well_formed|].
  split; vm_compute; intuition (discriminate || lia).
Qed.

Lemma idle_ultimate_is_paid_for_witness :
  let b := idle_battle in
  let a := Battle.heap b 0%nat in
  let b' := Battle.combat_step working_lookup Battle.P1 b 0%nat in
  b' = Battle.regular_combat Battle.P1 0%nat
         (Battle.set_heap (snd (Character.use_ultimate (Battle.heap b) 0%nat 8%nat)) b)
  /\ Character.energy (Battle.heap b' 0%nat)
     = Z.min (Character.energy a - Character.ultimate_energy_cost a + 1) 10
  /\ Battle.ultimate (Battle.damage_stats b') = Battle.ultimate (Battle.damage_stats b)
  /\ Battle.ability_usage_tracker b' = Battle.ability_usage_tracker b.
Proof.
  apply (idle_ultimate_is_paid_for working_lookup Battle.P1 idle_battle 0%nat 8%nat
           (ultimate_abilities.gojo_satoru_ultimate "Shibuya Incident")).
  - reflexivity.
  - reflexivity.
  - vm_compute. discriminate.
  - vm_compute. discriminate.
Defined.

(** The same step in numbers: the energy goes from 3 to 2 (the cost of 2
    is paid and the point of the basic attack gained), and the log shows
    the basic attack alone. *)
Example idle_ultimate_in_numbers :
  let b' := Battle.combat_step working_lookup Battle.P1 idle_battle 0%nat in
  Character.ultimate_damage (Battle.heap idle_battle 0%nat) = 0
  /\ Character.energy (Battle.heap b' 0%nat) = 2
  /\ Character.current_health (Battle.heap b' 8%nat) = 0
  /\ Battle.battle_log b' = [Battle.LogAttacks "Gojo Satoru" "Cursed Spirit" 150].
Proof. vm_compute. auto. Qed.

Lemma battle_leaves_the_cards_as_printed_witness :
  let final := after_rounds no_ultimate 50 opening_battle in
  static (Battle.heap final 0%nat) = static (Battle.heap opening_battle 0%nat)
  /\ static (Battle.heap final 8%nat) = static (Battle.heap opening_battle 8%nat).
Proof.
  split;
    apply (battle_leaves_the_cards_as_printed no_ultimate opening_battle 51
             (Battle.winner_at_cap (after_rounds no_ultimate 50 opening_battle)));
    apply simulate_battle_rounds; [reflexivity | vm_compute; reflexivity | lia
                                  | reflexivity | vm_compute; reflexivity | lia].
Defined.

Lemma sound_battle_stays_sound_witness :
  let final := after_rounds no_ultimate 50 opening_battle in
  sound final
  /\ Player.life_points (Battle.player1 final)
     <= Player.life_points (Battle.player1 opening_battle)
  /\ Player.life_points (Battle.player2 final)
     <= Player.life_points (Battle.player2 opening_battle).
Proof.
  apply (sound_battle_stays_sound no_ultimate opening_battle 51
           (Battle.winner_at_cap (after_rounds no_ultimate 50 opening_battle))).
  - exact opening_battle_sound.
  - apply simulate_battle_rounds; [reflexivity | vm_compute; reflexivity | lia].
Defined.



(** With a lookup that finds no ultimate the battle of the samples runs
    to the cap: player 2 has lost 100 life points to the first attack,
    Gojo Satoru and a Cursed Spirit have lost all their health, and both
    are on their fields at the end. *)
Example working_battle_in_numbers :
  let final := after_rounds no_ultimate 50 opening_battle in
  Battle.simulate_battle no_ultimate 51 opening_battle = Some (Battle.P1, final)
  /\ life_points final = (2000, 1900)
  /\ Character.current_health (Battle.heap final 0%nat) = 0
  /\ Character.current_health (Battle.heap final 8%nat) = 0
  /\ Player.field (Battle.player1 final) = [0; 2; 4; 5; 6]%nat
  /\ Player.field (Battle.player2 final) = [8; 9; 10; 11; 12]%nat.
Proof.
  split.
  - rewrite (simulate_battle_rounds no_ultimate 50 opening_battle 51);
      [|reflexivity | vm_compute; reflexivity | lia].
    replace (Battle.winner_at_cap (after_rounds no_ultimate 50 opening_battle))
      with Battle.P1 by (vm_compute; reflexivity).
    reflexivity.
  - vm_compute. auto 10.
Qed.

(** ** Further properties of the decks *)

Section Shuffling.

Lemma insert_after_head {A} (a y : A) (l : list A) :
  forall j, l !! j = Some y -> y :: <[j := a]> l ≡ₚ a :: l.
Proof.
  induction l as [|b l IH]; intros [|j] Hj; try discriminate.
  - injection Hj as ->. apply Permutation_swap.
  - cbn in *. rewrite (Permutation_swap b y), (IH j Hj).
    apply Permutation_swap.
Qed.

Lemma swap_Permutation {A} (l : list A) : forall i j, Deck.swap i j l ≡ₚ l.
Proof.
  unfold Deck.swap. induction l as [|a l IH]; intros i j; [destruct i; reflexivity|].
  destruct i as [|i], j as [|j]; cbn.
  - reflexivity.
  - destruct (l !! j) as [y|] eqn:Hj; [|reflexivity]. cbn.
    apply insert_after_head. exact Hj.
  - destruct (l !! i) as [x|] eqn:Hi; [|reflexivity]. cbn.
    apply insert_after_head. exact Hi.
  - specialize (IH i j). destruct (l !! i), (l !! j); cbn; try reflexivity.
    apply Permutation_skip. exact IH.
Qed.

Lemma shuffle_Permutation {A} (rng : nat -> nat) (i : nat) :
  forall (k : nat) (l : list A), Deck.shuffle rng i k l ≡ₚ l.
Proof.
  induction i as [|i IH]; intros k l; cbn [Deck.shuffle]; [reflexivity|].
  rewrite IH. apply swap_Permutation.
Qed.

End Shuffling.

Section DeckBuilding.

Variable table : ultimate_abilities.methods.
Variable rng : nat -> nat.

Lemma choice_elem {A} (k : nat) (seq : list A) (x : A) :
  Deck.choice rng k seq = Some x -> x ∈ seq.
Proof. unfold Deck.choice. apply list_elem_of_lookup_2. Qed.

Lemma copies_app (id : string) (l : list Character.t) (c : Character.t) :
  copies id (l ++ [c]) = copies id l + (if decide (id_of c = id) then 1 else 0).
Proof.
  unfold copies. rewrite filter_app, length_app, filter_cons, filter_nil.
  destruct (decide _); cbn; lia.
Qed.

Lemma add_card_counted pool card st :
  card ∈ pool -> counted pool st -> Deck.count_of card st < 3 ->
  counted pool (Deck.add_card table card st).
Proof.
  intros Hin (Hc & Hle & Hall) Hlt. unfold Deck.count_of in Hlt.
  unfold Deck.add_card, Deck.count_of.
  split; [|split]; cbn [Deck.selected_cards Deck.card_counts].
  - intros id. rewrite copies_app.
    change (id_of (Deck.create_character_from_data table card))
      with (card_id (Name card) (Variant card)).
    destruct (decide (card_id (Name card) (Variant card) = id)) as [<-|Hne].
    + rewrite lookup_insert_eq. cbn. rewrite Hc. reflexivity.
    + rewrite lookup_insert_ne by exact Hne. rewrite Hc. lia.
  - intros id.
    destruct (decide (card_id (Name card) (Variant card) = id)) as [<-|Hne].
    + rewrite lookup_insert_eq. cbn. lia.
    + rewrite lookup_insert_ne by exact Hne. apply Hle.
  - apply Forall_app. split; [exact Hall|]. constructor; [|constructor].
    change (id_of (Deck.create_character_from_data table card))
      with (card_id (Name card) (Variant card)).
    unfold pool_ids. apply elem_of_remove_dups.
    apply (list_elem_of_fmap_2 (fun card => card_id (Name card) (Variant card))).
    exact Hin.
Qed.

Lemma cost_loop_counted pool cost_cards attempts_left :
  forall target_count cards_added st st',
    (forall c, c ∈ cost_cards -> c ∈ pool) ->
    counted pool st ->
    Deck.cost_loop table rng attempts_left target_count cards_added cost_cards st
    = Returned st' ->
    counted pool st'
    /\ (length (Deck.selected_cards st')
        <= length (Deck.selected_cards st) + (target_count - cards_added))%nat.
Proof.
  induction attempts_left as [|n IH]; intros target_count cards_added st st' Hsub Hst;
    cbn [Deck.cost_loop].
  - intros [= <-]. split; [exact Hst | lia].
  - destruct (cards_added <? target_count)%nat eqn:Hlt;
      [|intros [= <-]; split; [exact Hst | lia]].
    apply Nat.ltb_lt in Hlt.
    destruct (Deck.choice rng (Deck.draws st) cost_cards) as [card|] eqn:Hchoice;
      [|discriminate].
    apply choice_elem, Hsub in Hchoice.
    destruct (Deck.count_of card (Deck.drawn 1 st) <? 3) eqn:Hcount.
    + intros Hrun. apply IH in Hrun as [Hc Hlen]; [| exact Hsub |].
      * split; [exact Hc|]. cbn in Hlen. rewrite length_app in Hlen. cbn in Hlen. lia.
      * apply add_card_counted; [exact Hchoice | exact Hst | lia].
    + intros Hrun. apply IH in Hrun as [Hc Hlen]; [| exact Hsub | exact Hst].
      split; [exact Hc|]. cbn in Hlen. lia.
Qed.

Lemma fill_by_cost_counted pool groups dist :
  forall st st',
    (forall cost c, c ∈ Deck.group_get cost groups -> c ∈ pool) ->
    counted pool st ->
    Deck.fill_by_cost table rng dist groups st = Returned st' ->
    counted pool st'
    /\ (length (Deck.selected_cards st')
        <= length (Deck.selected_cards st) + foldr (fun e acc => snd e + acc) 0 dist)%nat.
Proof.
  induction dist as [|[cost target_count] dist IH]; intros st st' Hsub Hst;
    cbn [Deck.fill_by_cost foldr snd].
  - intros [= <-]. split; [exact Hst | lia].
  - destruct (Deck.group_get cost groups) as [|c0 cs] eqn:Hget.
    + intros Hrun. apply IH in Hrun as [Hc Hlen]; [|exact Hsub | exact Hst].
      split; [exact Hc | lia].
    + destruct (Deck.cost_loop table rng (target_count * 3) target_count 0 (c0 :: cs) st)
        as [st1|e] eqn:Hloop; cbn [mbind exc_bind]; [|discriminate].
      apply cost_loop_counted with (pool := pool) in Hloop as [Hc1 Hlen1];
        [| intros c Hc; apply (Hsub cost); rewrite Hget; exact Hc | exact Hst].
      intros Hrun. apply IH in Hrun as [Hc Hlen]; [|exact Hsub | exact Hc1].
      split; [exact Hc | lia].
Qed.

Lemma fill_loop_counted pool groups size fuel :
  forall st st',
    (forall cost c, c ∈ Deck.group_get cost groups -> c ∈ pool) ->
    groups <> [] ->
    counted pool st ->
    Deck.fill_loop table rng fuel size groups st = Some (Returned st') ->
    counted pool st'
    /\ (size <= length (Deck.selected_cards st'))%nat
    /\ (length (Deck.selected_cards st') <= length (Deck.selected_cards st) `max` size)%nat.
Proof.
  induction fuel as [|fuel IH]; intros st st' Hsub Hne Hst; cbn [Deck.fill_loop];
    [discriminate|].
  destruct (length (Deck.selected_cards st) <? size)%nat eqn:Hlt.
  2:{ apply Nat.ltb_ge in Hlt. intros [= <-]. split; [exact Hst | lia]. }
  apply Nat.ltb_lt in Hlt.
  destruct (merge_sort Z.le (fst <$> groups)) as [|k ks] eqn:Hsort.
  { exfalso. apply Hne.
    pose proof (merge_sort_Permutation Z.le (fst <$> groups)) as Hp.
    rewrite Hsort in Hp. symmetry in Hp. apply Permutation_nil_r in Hp.
    destruct groups; [reflexivity | discriminate]. }
  destruct (Deck.choice rng (Deck.draws st) (k :: ks)) as [cost|]; [|discriminate].
  destruct (Deck.choice rng (S (Deck.draws st)) (Deck.group_get cost groups))
    as [card|] eqn:Hchoice; [|discriminate].
  apply choice_elem, Hsub in Hchoice.
  destruct (Deck.count_of card (Deck.drawn 2 st) <? 3) eqn:Hcount.
  - intros Hrun. apply IH in Hrun as (Hc & Hsize & Hlen); [| exact Hsub | exact Hne |].
    + split; [exact Hc|]. split; [exact Hsize|].
      cbn in Hlen. rewrite length_app in Hlen. cbn in Hlen. lia.
    + apply add_card_counted; [exact Hchoice | exact Hst | lia].
  - intros Hrun. apply IH in Hrun as (Hc & Hsize & Hlen);
      [| exact Hsub | exact Hne | exact Hst].
    split; [exact Hc|]. split; [exact Hsize|]. cbn in Hlen. lia.
Qed.

Lemma group_insert_elem cost card (g : list (Z * list CardRow)) :
  forall k c,
    c ∈ Deck.group_get k (Deck.group_insert cost card g) ->
    c = card \/ c ∈ Deck.group_get k g.
Proof.
  unfold Deck.group_get. induction g as [|[c0 l0] g IH]; intros k c; cbn.
  - destruct (cost =? k); cbn; intros H; [|inversion H].
    apply list_elem_of_singleton in H. auto.
  - destruct (c0 =? cost) eqn:E; cbn.
    + destruct (c0 =? k); cbn; [|auto].
      intros H. apply elem_of_app in H as [H|H]; [auto|].
      apply list_elem_of_singleton in H. auto.
    + destruct (c0 =? k); cbn; [auto|]. apply IH.
Qed.

Lemma group_insert_nonempty cost card (g : list (Z * list CardRow)) :
  Deck.group_insert cost card g <> [].
Proof. destruct g as [|[c0 l0] g]; cbn; [|destruct (c0 =? cost)]; discriminate. Qed.

Lemma group_by_cost_from (l : list CardRow) :
  forall g k c,
    c ∈ Deck.group_get k
          (foldl (fun g card => Deck.group_insert (Z.min (Z.max (Cost card) 1) 7) card g)
                 g l) ->
    c ∈ l \/ c ∈ Deck.group_get k g.
Proof.
  induction l as [|x l IH]; intros g k c; cbn [foldl]; [auto|].
  intros H. apply IH in H as [H|H]; [left; right; exact H|].
  apply group_insert_elem in H as [->|H]; [left; left | right; exact H].
Qed.

Lemma group_by_cost_nonempty (l : list CardRow) :
  forall g, (l <> [] \/ g <> []) ->
  foldl (fun g card => Deck.group_insert (Z.min (Z.max (Cost card) 1) 7) card g) g l <> [].
Proof.
  induction l as [|x l IH]; intros g [H|H]; cbn [foldl]; try congruence.
  - apply IH. right. apply group_insert_nonempty.
  - apply IH. right. apply group_insert_nonempty.
Qed.

(** What every deck that is built satisfies. *)
Lemma build_initial_deck_counted (fuel size : nat) (pool : list CardRow)
    (deck : list Character.t) :
  Deck.build_initial_deck table rng fuel size pool = Some (Returned deck) ->
  exists st,
    deck ≡ₚ Deck.selected_cards st
    /\ counted pool st
    /\ (size <= length deck <= size `max` 40)%nat.
Proof.
  unfold Deck.build_initial_deck. destruct pool as [|card pool]; [discriminate|].
  set (cards := card :: pool).
  assert (Hsub : forall cost c, c ∈ Deck.group_get cost (Deck.group_by_cost cards) ->
                                c ∈ cards).
  { intros cost c H. apply group_by_cost_from in H as [H|H]; [exact H | inversion H]. }
  assert (Hne : Deck.group_by_cost cards <> [])
    by (apply group_by_cost_nonempty; left; discriminate).
  assert (H0 : counted cards (Deck.mkBuildState [] ∅ 0)).
  { split; [|split]; cbn.
    - intros id. rewrite lookup_empty. reflexivity.
    - intros id. rewrite lookup_empty. cbn. lia.
    - constructor. }
  destruct (Deck.fill_by_cost table rng Deck.COST_DISTRIBUTION
              (Deck.group_by_cost cards) (Deck.mkBuildState [] ∅ 0))
    as [st1|e] eqn:Hfill; [|discriminate].
  apply fill_by_cost_counted with (pool := cards) in Hfill as [Hc1 Hlen1];
    [| exact Hsub | exact H0].
  cbn in Hlen1.
  destruct (Deck.fill_loop table rng fuel size (Deck.group_by_cost cards) st1)
    as [[st2|e]|] eqn:Hloop; try discriminate.
  apply fill_loop_counted with (pool := cards) in Hloop as (Hc2 & Hsize & Hlen2);
    [| exact Hsub | exact Hne | exact Hc1].
  intros [= <-]. exists st2. split; [apply shuffle_Permutation|].
  split; [exact Hc2|]. rewrite (Permutation_length (shuffle_Permutation _ _ _ _)). lia.
Qed.

Lemma copies_Permutation (id : string) (l l' : list Character.t) :
  l ≡ₚ l' -> copies id l = copies id l'.
Proof. intros H. unfold copies. rewrite H. reflexivity. Qed.

Lemma length_filter_impl {A} (P Q : A -> Prop)
    `{!forall x, Decision (P x)} `{!forall x, Decision (Q x)} (l : list A) :
  (forall x, P x -> Q x) ->
  (length (filter P l) <= length (filter Q l))%nat.
Proof.
  intros HPQ. induction l as [|x l IH]; [reflexivity|].
  rewrite !filter_cons. destruct (decide (P x)) as [HP|HP].
  - rewrite decide_True by auto. cbn. lia.
  - destruct (decide (Q x)); cbn; lia.
Qed.

(** X21. A deck that [build_initial_deck] returns holds at most three
    copies of a card: at most three characters under any key
    [name (variant)], hence at most three with any name and variant,
    which is the count that [get_card_count] takes. *)
Theorem built_deck_holds_three_copies_at_most
    (fuel size : nat) (pool : list CardRow) (deck : list Character.t) :
  Deck.build_initial_deck table rng fuel size pool = Some (Returned deck) ->
  (forall id, copies id deck <= 3)
  /\ (forall name variant,
         (length (filter (fun c => Character.name c = name
                                   /\ Character.variant c = variant) deck) <= 3)%nat).
Proof.
  intros Hrun. apply build_initial_deck_counted in Hrun as (st & Hp & (Hc & Hle & _) & _).
  assert (Hid : forall id, copies id deck <= 3).
  { intros id. rewrite (copies_Permutation id _ _ Hp), Hc. apply Hle. }
  split; [exact Hid|]. intros name variant.
  specialize (Hid (card_id name variant)). unfold copies in Hid.
  pose proof (length_filter_impl
                (fun c => Character.name c = name /\ Character.variant c = variant)
                (fun c => id_of c = card_id name variant) deck) as Hle'.
  assert (forall x, Character.name x = name /\ Character.variant x = variant ->
                    id_of x = card_id name variant)
    by (intros x [<- <-]; reflexivity).
  specialize (Hle' H). lia.
Qed.

(** X22. A deck that is returned has the size asked for at least, and
    exactly that size when it is 40 or more: the distribution by cost
    selects 40 cards at most, and the second loop adds one card at a
    time until the size is reached.  For a size below 40 the deck can
    be longer than asked. *)
Theorem built_deck_has_the_size
    (fuel size : nat) (pool : list CardRow) (deck : list Character.t) :
  Deck.build_initial_deck table rng fuel size pool = Some (Returned deck) ->
  (size <= length deck <= size `max` 40)%nat
  /\ ((40 <= size)%nat -> length deck = size).
Proof.
  intros Hrun. apply build_initial_deck_counted in Hrun as (st & _ & _ & Hlen).
  split; [exact Hlen | lia].
Qed.

Lemma length_filter_filter {A} (P Q : A -> Prop)
    `{!forall x, Decision (P x)} `{!forall x, Decision (Q x)} (l : list A) :
  (length (filter P (filter Q l)) <= length (filter P l))%nat.
Proof.
  induction l as [|x l IH]; [reflexivity|].
  rewrite (filter_cons Q), (filter_cons P x l).
  destruct (decide (Q x)); [rewrite filter_cons|]; destruct (decide (P x)); cbn; lia.
Qed.

Lemma length_le_three_per_id (ids : list string) :
  forall l : list Character.t,
    (forall id, copies id l <= 3) ->
    Forall (fun c => id_of c ∈ ids) l ->
    Z.of_nat (length l) <= 3 * Z.of_nat (length ids).
Proof.
  induction ids as [|i ids IH]; intros l Hle Hall.
  - destruct l as [|c l]; [cbn; lia|].
    apply Forall_cons in Hall as [Hc _]. inversion Hc.
  - pose proof (filter_app_complement (fun c => id_of c = i) l) as Hp.
    apply Permutation_length in Hp. rewrite length_app in Hp.
    specialize (Hle i) as Hi. unfold copies in Hi.
    assert (Hrest : Z.of_nat (length (filter (fun c => ~ id_of c = i) l))
                    <= 3 * Z.of_nat (length ids)).
    { apply IH.
      - intros id. specialize (Hle id). unfold copies in *.
        pose proof (length_filter_filter (fun c => id_of c = id)
                      (fun c => ~ id_of c = i) l). lia.
      - apply Forall_forall. intros c Hc. apply list_elem_of_filter in Hc as [Hni Hc].
        rewrite Forall_forall in Hall. specialize (Hall c Hc).
        apply elem_of_cons in Hall as [Heq|Hin]; [contradiction | exact Hin]. }
    cbn [length]. lia.
Qed.

Lemma choice_is_Some {A} (k : nat) (seq : list A) :
  seq <> [] -> exists x, Deck.choice rng k seq = Some x.
Proof.
  intros Hne. unfold Deck.choice. apply lookup_lt_is_Some_2.
  apply Nat.mod_upper_bound. destruct seq; [congruence | discriminate].
Qed.

Lemma cost_loop_returns cost_cards attempts_left :
  cost_cards <> [] ->
  forall target_count cards_added st,
    exists st',
      Deck.cost_loop table rng attempts_left target_count cards_added cost_cards st
      = Returned st'.
Proof.
  intros Hne. induction attempts_left as [|n IH]; intros target_count cards_added st;
    cbn [Deck.cost_loop]; [eauto|].
  destruct (cards_added <? target_count)%nat; [|eauto].
  destruct (choice_is_Some (Deck.draws st) cost_cards Hne) as [card ->].
  destruct (Deck.count_of card (Deck.drawn 1 st) <? 3); apply IH.
Qed.

Lemma fill_by_cost_returns groups dist :
  forall st, exists st', Deck.fill_by_cost table rng dist groups st = Returned st'.
Proof.
  induction dist as [|[cost target_count] dist IH]; intros st; cbn [Deck.fill_by_cost];
    [eauto|].
  destruct (Deck.group_get cost groups) as [|c0 cs] eqn:Hget; [apply IH|].
  destruct (cost_loop_returns (c0 :: cs) (target_count * 3) ltac:(discriminate)
              target_count 0%nat st) as [st1 ->].
  cbn [mbind exc_bind]. apply IH.
Qed.

Lemma group_get_nonempty (groups : list (Z * list CardRow)) (cost : Z) :
  Forall (fun e => snd e <> []) groups ->
  cost ∈ fst <$> groups ->
  Deck.group_get cost groups <> [].
Proof.
  unfold Deck.group_get. induction 1 as [|[c l] groups Hl _ IH]; cbn.
  - intros H. inversion H.
  - intros H. destruct (c =? cost) eqn:E; cbn; [exact Hl|].
    apply elem_of_cons in H as [->|H]; [rewrite Z.eqb_refl in E; discriminate|].
    apply IH. exact H.
Qed.

Lemma group_insert_lists cost card (g : list (Z * list CardRow)) :
  Forall (fun e => snd e <> []) g ->
  Forall (fun e => snd e <> []) (Deck.group_insert cost card g).
Proof.
  induction 1 as [|[c l] g Hl Hg IH]; cbn.
  - constructor; [discriminate | constructor].
  - destruct (c =? cost); constructor; cbn; auto.
    destruct l; discriminate.
Qed.

Lemma group_by_cost_lists (l : list CardRow) :
  forall g, Forall (fun e => snd e <> []) g ->
  Forall (fun e => snd e <> [])
    (foldl (fun g card => Deck.group_insert (Z.min (Z.max (Cost card) 1) 7) card g) g l).
Proof.
  induction l as [|x l IH]; intros g Hg; cbn [foldl]; [exact Hg|].
  apply IH, group_insert_lists, Hg.
Qed.

Lemma fill_loop_raises_nothing groups size fuel :
  Forall (fun e => snd e <> []) groups ->
  forall st e, Deck.fill_loop table rng fuel size groups st <> Some (Raised e).
Proof.
  intros Hg. induction fuel as [|fuel IH]; intros st e; cbn [Deck.fill_loop];
    [discriminate|].
  destruct (length (Deck.selected_cards st) <? size)%nat; [|discriminate].
  destruct (merge_sort Z.le (fst <$> groups)) as [|k ks] eqn:Hsort; [discriminate|].
  destruct (choice_is_Some (Deck.draws st) (k :: ks) ltac:(discriminate)) as [cost Hcost].
  rewrite Hcost. apply choice_elem in Hcost. rewrite <- Hsort in Hcost.
  rewrite merge_sort_Permutation in Hcost.
  destruct (choice_is_Some (S (Deck.draws st)) (Deck.group_get cost groups)
              (group_get_nonempty groups cost Hg Hcost)) as [card ->].
  destruct (Deck.count_of card (Deck.drawn 2 st) <? 3); apply IH.
Qed.

(** X23. The construction of a deck raises on an empty pool only:
    [ValueError] there, and nothing on a pool with a card. *)
Theorem build_raises_on_the_empty_pool_only
    (fuel size : nat) (pool : list CardRow) (e : exception) :
  Deck.build_initial_deck table rng fuel size pool = Some (Raised e)
  <-> pool = [] /\ e = ValueError.
Proof.
  split.
  - unfold Deck.build_initial_deck. destruct pool as [|card pool].
    + intros [= <-]. auto.
    + set (cards := card :: pool).
      destruct (fill_by_cost_returns (Deck.group_by_cost cards) Deck.COST_DISTRIBUTION
                  (Deck.mkBuildState [] ∅ 0)) as [st1 ->].
      pose proof (fill_loop_raises_nothing (Deck.group_by_cost cards) size fuel
                    (group_by_cost_lists cards [] ltac:(constructor)) st1) as Hnot.
      destruct (Deck.fill_loop table rng fuel size (Deck.group_by_cost cards) st1)
        as [[st2|e']|]; try discriminate.
      exfalso. exact (Hnot e' eq_refl).
  - intros [-> ->]. reflexivity.
Qed.

(** X24. A pool too small for the size is never made into a deck: with
    [k] different keys [name (variant)] in a pool that is not empty and
    a size above [3 k], the second loop of [build_initial_deck] does
    not end, whatever the draws. *)
Theorem small_pool_never_builds (fuel size : nat) (pool : list CardRow) :
  pool <> [] ->
  (3 * length (pool_ids pool) < size)%nat ->
  Deck.build_initial_deck table rng fuel size pool = None.
Proof.
  intros Hne Hsmall.
  destruct (Deck.build_initial_deck table rng fuel size pool) as [[deck|e]|] eqn:Hrun;
    [| |reflexivity]; exfalso.
  - apply build_initial_deck_counted in Hrun as (st & Hp & (Hc & Hle & Hall) & Hlen).
    assert (Hbound : Z.of_nat (length (Deck.selected_cards st))
                     <= 3 * Z.of_nat (length (pool_ids pool))).
    { apply length_le_three_per_id; [|exact Hall]. intros id. rewrite Hc. apply Hle. }
    apply Permutation_length in Hp. lia.
  - unfold Deck.build_initial_deck in Hrun. destruct pool as [|card pool]; [congruence|].
    set (cards := card :: pool) in *.
    destruct (fill_by_cost_returns (Deck.group_by_cost cards) Deck.COST_DISTRIBUTION
                (Deck.mkBuildState [] ∅ 0)) as [st1 Hst1].
    rewrite Hst1 in Hrun.
    pose proof (fill_loop_raises_nothing (Deck.group_by_cost cards) size fuel
                  (group_by_cost_lists cards [] ltac:(constructor)) st1) as Hnot.
    destruct (Deck.fill_loop table rng fuel size (Deck.group_by_cost cards) st1)
      as [[st2|e']|]; try discriminate.
    exact (Hnot e' eq_refl).
Qed.

End DeckBuilding.

Lemma built_deck_holds_three_copies_at_most_witness :
  copies "Panda (Standard)" two_card_deck <= 3
  /\ (length (filter (fun c => Character.name c = "Mahito"
                               /\ Character.variant c = "Standard") two_card_deck) <= 3)%nat.
Proof.
  destruct (built_deck_holds_three_copies_at_most sample_table (fun k => k) 10 5
              two_cards two_card_deck) as [Hid Hname]; [vm_compute; reflexivity|].
  split; [apply Hid | apply Hname].
Defined.

Lemma built_deck_has_the_size_witness :
  (5 <= length two_card_deck <= 5 `max` 40)%nat
  /\ ((40 <= 5)%nat -> length two_card_deck = 5%nat).
Proof.
  apply (built_deck_has_the_size sample_table (fun k => k) 10 5 two_cards).
  vm_compute. reflexivity.
Defined.

(** A size of 5 asked of the two cards gives a deck of six: three
    copies of each, which the distribution by cost selects before the
    size is looked at. *)
Example two_cards_build_six :
  Deck.build_initial_deck sample_table (fun k => k) 10 5 two_cards
  = Some (Returned two_card_deck)
  /\ Character.name <$> two_card_deck
     = ["Panda"; "Panda"; "Mahito"; "Mahito"; "Mahito"; "Panda"]%string.
Proof. split; vm_compute; reflexivity. Qed.

Lemma small_pool_never_builds_witness :
  Deck.build_initial_deck sample_table (fun k => k) 10 7 two_cards = None.
Proof.
  apply small_pool_never_builds; [discriminate | vm_compute; lia].
Defined.

(** ** Further properties of the balance simulator *)

Section Scores.

Import BalanceSimulator.

Lemma cost_efficiency_bounds (card_data : CardRow) :
  (0 <= _calculate_cost_efficiency card_data <= 10)%Q.
Proof.
  unfold _calculate_cost_efficiency. split.
  - apply Q.min_glb; [discriminate | apply Q.le_max_l].
  - apply Q.le_min_l.
Qed.

Lemma card_score_at_most_100 self stats card_id card_stats x :
  card_score self stats card_id card_stats = Returned x -> (x <= 100)%Q.
Proof.
  unfold card_score. destruct (List.find _ _) as [card_data|]; [|discriminate].
  intros [= <-].
  apply Qle_trans with (40 + 30 + 20 + 10)%Q; [|discriminate].
  repeat apply Qplus_le_compat.
  - destruct (Qle_bool _ _); discriminate.
  - apply Q.le_min_l.
  - apply Q.le_min_l.
  - apply cost_efficiency_bounds.
Qed.

Lemma total_plays_nonneg (stats : Stats) :
  Forall (fun e => 0 <= plays (snd e)) stats ->
  0 <= foldr (fun e acc => plays (snd e) + acc) 0 stats.
Proof. induction 1; cbn; lia. Qed.

Lemma Qdiv_nonneg (a b : Z) :
  0 <= a -> 0 <= b -> (0 <= inject_Z a / inject_Z b)%Q.
Proof.
  intros Ha Hb. unfold Qdiv. apply Qmult_le_0_compat; [|apply Qinv_le_0_compat].
  - rewrite Zle_Qle in Ha. exact Ha.
  - rewrite Zle_Qle in Hb. exact Hb.
Qed.

Lemma card_score_nonneg self stats card_id card_stats x :
  Forall (fun e => 0 <= plays (snd e)) stats ->
  0 <= plays card_stats -> 0 <= total_damage card_stats ->
  card_score self stats card_id card_stats = Returned x -> (0 <= x)%Q.
Proof.
  intros Hall Hplays Hdamage. unfold card_score.
  destruct (List.find _ _) as [card_data|]; [|discriminate].
  intros [= <-].
  apply Qle_trans with (0 + 0 + 0 + 0)%Q; [discriminate|].
  repeat apply Qplus_le_compat.
  - destruct (Qle_bool _ _); discriminate.
  - apply Q.min_glb; [discriminate|].
    unfold Qdiv at 1. apply Qmult_le_0_compat; [|discriminate].
    apply Qdiv_nonneg; assumption.
  - apply Q.min_glb; [discriminate|].
    apply Qmult_le_0_compat; [|discriminate].
    apply Qdiv_nonneg; [assumption | apply total_plays_nonneg; exact Hall].
  - apply cost_efficiency_bounds.
Qed.

Lemma card_scores_at_most_100 self all rest :
  forall xs, card_scores self all rest = Returned xs ->
             Forall (fun x => (x <= 100)%Q) xs.
Proof.
  induction rest as [|[card_id card_stats] rest IH]; intros xs; cbn [card_scores].
  - intros [= <-]. constructor.
  - destruct (skipped card_id card_stats); [apply IH|].
    destruct (card_score self all card_id card_stats) as [x|] eqn:Hx;
      cbn [mbind exc_bind]; [|discriminate].
    destruct (card_scores self all rest) as [xs'|]; cbn [mbind exc_bind]; [|discriminate].
    intros [= <-]. constructor; [|apply IH; reflexivity].
    apply card_score_at_most_100 in Hx. exact Hx.
Qed.

Lemma card_scores_nonneg self all rest :
  Forall (fun e => 0 <= plays (snd e)) all ->
  Forall (fun e => 0 <= total_damage (snd e)) rest ->
  forall xs, card_scores self all rest = Returned xs ->
             Forall (fun x => (0 <= x)%Q) xs.
Proof.
  intros Hall. induction rest as [|[card_id card_stats] rest IH]; intros Hrest xs;
    cbn [card_scores].
  - intros [= <-]. constructor.
  - apply Forall_cons in Hrest as [Hd Hrest]. cbn in Hd.
    destruct (skipped card_id card_stats) eqn:Hskip; [apply IH; exact Hrest|].
    destruct (card_score self all card_id card_stats) as [x|] eqn:Hx;
      cbn [mbind exc_bind]; [|discriminate].
    destruct (card_scores self all rest) as [xs'|]; cbn [mbind exc_bind]; [|discriminate].
    intros [= <-]. constructor; [|apply IH; [exact Hrest | reflexivity]].
    apply card_score_nonneg in Hx; [exact Hx | exact Hall | | exact Hd].
    unfold skipped in Hskip. apply orb_false_elim in Hskip as [_ Hskip]. lia.
Qed.

Lemma sum_at_most (xs : list Q) :
  Forall (fun x => (x <= 100)%Q) xs ->
  (foldr Qplus 0 xs <= 100 * inject_Z (Z.of_nat (length xs)))%Q.
Proof.
  induction 1 as [|x xs Hx _ IH]; [discriminate|].
  cbn [foldr length]. rewrite Nat2Z.inj_succ. unfold Z.succ.
  rewrite inject_Z_plus, Qmult_plus_distr_r, Qplus_comm.
  apply Qplus_le_compat; [exact IH|]. exact Hx.
Qed.

Lemma sum_nonneg (xs : list Q) :
  Forall (fun x => (0 <= x)%Q) xs -> (0 <= foldr Qplus 0 xs)%Q.
Proof.
  induction 1 as [|x xs Hx _ IH]; [discriminate|].
  cbn [foldr]. apply Qle_trans with (0 + 0)%Q; [discriminate|].
  apply Qplus_le_compat; assumption.
Qed.

(** X25. The balance score is a number of points out of 100: when
    [calculate_balance_score] returns, its value is 100 at most, and
    it is not negative when no card has a negative count of plays or
    of damage. *)
Theorem balance_score_is_out_of_100 (self : t) (stats : Stats) (x : Q) :
  calculate_balance_score self stats = Returned x ->
  (x <= 100)%Q
  /\ (Forall (fun e => 0 <= plays (snd e) /\ 0 <= total_damage (snd e)) stats ->
      (0 <= x)%Q).
Proof.
  unfold calculate_balance_score.
  destruct (card_scores self stats stats) as [xs|] eqn:Hxs; cbn [mbind exc_bind];
    [|discriminate].
  destruct xs as [|x0 xs]; [intros [= <-]; split; [discriminate | intros _; discriminate]|].
  intros [= <-].
  assert (Hpos : (0 < inject_Z (Z.of_nat (length (x0 :: xs))))%Q).
  { rewrite <- (Zlt_Qlt 0). cbn [length]. lia. }
  split.
  - apply Qle_shift_div_r; [exact Hpos|].
    apply (sum_at_most (x0 :: xs)). exact (card_scores_at_most_100 _ _ _ _ Hxs).
  - intros Hall. apply Qle_shift_div_l; [exact Hpos|]. rewrite Qmult_0_l.
    apply (sum_nonneg (x0 :: xs)). apply (card_scores_nonneg self stats stats); [| |exact Hxs].
    + eapply Forall_impl; [exact Hall|]. intros e [H _]. exact H.
    + eapply Forall_impl; [exact Hall|]. intros e [_ H]. exact H.
Qed.

Lemma balance_score_is_out_of_100_witness :
  exists x,
    calculate_balance_score (fresh_simulator fourteen_cards) weak_stats = Returned x
    /\ (x <= 100)%Q /\ (0 <= x)%Q.
Proof.
  eexists. split; [vm_compute; reflexivity|].
  destruct (balance_score_is_out_of_100 (fresh_simulator fourteen_cards) weak_stats
              (2240000000000 # 80000000000)) as [Hle Hge]; [vm_compute; reflexivity|].
  split; [exact Hle|]. apply Hge.
  repeat constructor; cbn; lia.
Defined.

End Scores.

Section Scaling.

Import BalanceSimulator.









End Scaling.
